(** * libflexkube: the container reconciler, the Kubernetes PKI schema and the
      control plane builder

    A shallow embedding of [pkg/container/containers.go], of the Kubernetes
    certificate schema that travels with it, and of
    [pkg/controlplane/controlplane.go], together with the properties the
    specification states about them.

    Go values are modelled as the code has them:
    - [containersState] is a Go map from names to *pointers* to
      [hostConfiguredContainer]; maps are reference values as well.  Both
      kinds of sharing are visible in the code ([c.currentState =
      c.previousState], [c.currentState[n] = d]), so the model keeps a heap
      of container cells and a store of map objects, and the engine only
      holds references.
    - functions returning [error] run in a state-and-error monad over that
      store, the remote hosts and the log of remote operations.
    - Go's unspecified map iteration order is an arbitrary ranking of the
      keys, a parameter of the whole development. *)

From stdpp Require Import gmap strings list fin_maps sorting pretty.

Module PkgContainer.

#[local] Open Scope string_scope.

(** ** Errors

    [fmt.Errorf] with a [%w] verb wraps a cause; without, it makes a leaf.
    [Panic] stands for a Go run-time panic. *)

Inductive error :=
| Errorf (msg : string)
| Wrapf (msg : string) (cause : error)
| Panic (msg : string).

Fixpoint rootCause (e : error) : error :=
  match e with
  | Wrapf _ c => rootCause c
  | _ => e
  end.

#[global] Instance error_eq_dec : EqDecision error.
Proof. solve_decision. Defined.

(** ** Data model *)

(** [host.Host]: the placement descriptor; equality is structural. *)
Record Host := { Address : string; Credentials : string }.

(** [types.ContainerConfig]: the runtime spec; equality is structural. *)
Record ContainerConfig := {
  Name : string; Image : string; Args : list string; Mounts : list string }.

(** [types.ContainerStatus]: what the runtime reported last. *)
Record ContainerStatus := { exists_ : bool; running : bool; ID : nat }.

Record containerT := { Config : ContainerConfig; Status : ContainerStatus }.

(** The validated [hostConfiguredContainer]. *)
Record hostConfiguredContainer := {
  host : Host;
  container : containerT;
  configFiles : gmap string string }.

(** The exported [HostConfiguredContainer], as read from YAML. *)
Record HostConfiguredContainer := {
  HCC_Host : Host;
  HCC_Container : containerT;
  HCC_ConfigFiles : gmap string string }.

#[global] Instance Host_eq_dec : EqDecision Host.
Proof. solve_decision. Defined.
#[global] Instance ContainerConfig_eq_dec : EqDecision ContainerConfig.
Proof. solve_decision. Defined.
#[global] Instance ContainerStatus_eq_dec : EqDecision ContainerStatus.
Proof. solve_decision. Defined.
#[global] Instance containerT_eq_dec : EqDecision containerT.
Proof. solve_decision. Defined.
#[global] Instance hostConfiguredContainer_eq_dec : EqDecision hostConfiguredContainer.
Proof. solve_decision. Defined.
#[global] Instance HostConfiguredContainer_eq_dec : EqDecision HostConfiguredContainer.
Proof. solve_decision. Defined.

Definition noStatus : ContainerStatus :=
  {| exists_ := false; running := false; ID := 0 |}.

#[global] Instance hostConfiguredContainer_inhabited : Inhabited hostConfiguredContainer :=
  populate {| host := {| Address := ""; Credentials := "" |};
              container := {| Config := {| Name := ""; Image := ""; Args := []; Mounts := [] |};
                              Status := noStatus |};
              configFiles := ∅ |}.

(** [container.Exists()] and [container.IsRunning()] read the recorded
    status; they do not talk to the host. *)
Definition Exists (c : containerT) : bool := exists_ (Status c).
Definition IsRunning (c : containerT) : bool := exists_ (Status c) && running (Status c).

Definition withStatus (s : ContainerStatus) (h : hostConfiguredContainer) : hostConfiguredContainer :=
  {| host := host h;
     container := {| Config := Config (container h); Status := s |};
     configFiles := configFiles h |}.

Definition withConfigFiles (f : gmap string string) (h : hostConfiguredContainer) : hostConfiguredContainer :=
  {| host := host h; container := container h; configFiles := f |}.

(** ** The store, the hosts and the log *)

Abbreviation loc := nat (only parsing).
Abbreviation mref := nat (only parsing).

(** One entry per operation sent to a host, tagged with the container cell
    on whose behalf it is sent. *)
Inductive event :=
| Inspect (c : loc)
| ReadFile (c : loc) (path : string)
| WriteFile (c : loc) (path content : string)
| DeleteFile (c : loc) (path : string)
| Create (c : loc)
| Start (c : loc)
| Stop (c : loc)
| Remove (c : loc).

#[global] Instance event_eq_dec : EqDecision event.
Proof. solve_decision. Defined.

(** Reads leave the hosts as they are; everything else is a mutation. *)
Definition isMutation (e : event) : bool :=
  match e with
  | Inspect _ | ReadFile _ _ => false
  | _ => true
  end.

Definition isFileWrite (e : event) : bool :=
  match e with WriteFile _ _ _ => true | _ => false end.

(** The runtime operations on a container: create, start, stop, remove. *)
Definition isRuntimeMutation (e : event) : bool :=
  match e with
  | Create _ | Start _ | Stop _ | Remove _ => true
  | _ => false
  end.

Definition eventCell (e : event) : loc :=
  match e with
  | Inspect c | ReadFile c _ | WriteFile c _ _ | DeleteFile c _
  | Create c | Start c | Stop c | Remove c => c
  end.

(** The remote side: the containers each daemon knows (identifier to
    running flag), the files on the hosts, the next identifier a daemon hands
    out, and which operations go through. *)
Record World := {
  daemon : gmap nat bool;
  disk : gmap (string * string) string;
  nextID : nat;
  healthy : event → bool }.

Record State := {
  heap : gmap loc hostConfiguredContainer;
  maps : gmap mref (gmap string loc);
  world : World;
  trace : list event }.

Definition setHeap (f : gmap loc hostConfiguredContainer → gmap loc hostConfiguredContainer)
    (σ : State) : State :=
  {| heap := f (heap σ); maps := maps σ; world := world σ; trace := trace σ |}.

Definition setMaps (f : gmap mref (gmap string loc) → gmap mref (gmap string loc))
    (σ : State) : State :=
  {| heap := heap σ; maps := f (maps σ); world := world σ; trace := trace σ |}.

Definition setWorld (f : World → World) (σ : State) : State :=
  {| heap := heap σ; maps := maps σ; world := f (world σ); trace := trace σ |}.

Definition setDaemon (f : gmap nat bool → gmap nat bool) (w : World) : World :=
  {| daemon := f (daemon w); disk := disk w; nextID := nextID w; healthy := healthy w |}.

Definition setDisk (f : gmap (string * string) string → gmap (string * string) string)
    (w : World) : World :=
  {| daemon := daemon w; disk := f (disk w); nextID := nextID w; healthy := healthy w |}.

Definition bumpID (w : World) : World :=
  {| daemon := daemon w; disk := disk w; nextID := S (nextID w); healthy := healthy w |}.

(** The map object behind a reference, and the cell behind a pointer. *)
Definition mapAt (m : mref) (σ : State) : gmap string loc := maps σ !!! m.
Definition cellAt (c : loc) (σ : State) : hostConfiguredContainer := heap σ !!! c.

(** ** The monad of fallible, stateful functions *)

Definition M (A : Type) : Type := State → (error + A) * State.

Definition ret {A} (a : A) : M A := λ σ, (inr a, σ).
Definition fail {A} (e : error) : M A := λ σ, (inl e, σ).
Definition bind {A B} (m : M A) (k : A → M B) : M B :=
  λ σ, match m σ with
       | (inl e, σ') => (inl e, σ')
       | (inr a, σ') => k a σ'
       end.

(** [if err := m; err != nil { return fmt.Errorf("msg: %w", err) }] *)
Definition wrap {A} (msg : string) (m : M A) : M A :=
  λ σ, match m σ with
       | (inl e, σ') => (inl (Wrapf msg e), σ')
       | r => r
       end.

Definition modify (f : State → State) : M unit := λ σ, (inr tt, f σ).

Notation "m ;;; k" := (bind m (λ _, k))
  (at level 100, right associativity).

Fixpoint forEach {A} (l : list A) (body : A → M unit) : M unit :=
  match l with
  | [] => ret tt
  | x :: l' => body x ;;; forEach l' body
  end.

(** ** The layer below the reconciler

    [containersstate.go] and [hostconfiguredcontainer.go] are not part of the
    sources at hand; their operations are modelled from the specification
    (section 4.5 and the interfaces of section 6). *)

Section Reconciler.

(** Go leaves the iteration order of [range] over a map open.  The model
    visits the keys by increasing [rank], for an arbitrary [rank].  The key
    set is taken when the loop starts; a loop body looks the key up again
    before it runs, since an entry deleted before it is reached is not
    produced. *)
Variable rank : string → nat.

Definition rankLe (a b : string) : Prop := (rank a ≤ rank b)%nat.

#[global] Instance rankLe_dec : RelDecision rankLe.
Proof. intros a b. unfold rankLe. apply _. Defined.

Definition rangeKeys {V} (m : gmap string V) : list string :=
  merge_sort rankLe (elements (dom m)).

(** Every remote operation is logged, then goes through or fails. *)
Definition emit (ev : event) : M unit := λ σ,
  let σ' := {| heap := heap σ; maps := maps σ; world := world σ;
               trace := trace σ ++ [ev] |} in
  if healthy (world σ) ev then (inr tt, σ')
  else (inl (Errorf "host operation failed"), σ').

(** Modelled from the spec: [hostConfiguredContainer.Start] (section 4.4,
    pass 1, "start it; propagate any start error"; section 6, [start(id)]).
    The recorded status follows the daemon's. *)
Definition hcc_Start (c : loc) : M unit :=
  emit (Start c) ;;;
  λ σ, let h := cellAt c σ in
       let id := ID (Status (container h)) in
       match daemon (world σ) !! id with
       | None => (inl (Errorf "no such container"), σ)
       | Some _ =>
           (inr tt,
            setHeap <[c := withStatus {| exists_ := true; running := true; ID := id |} h]>
              (setWorld (setDaemon <[id := true]>) σ))
       end.

Definition writeFile (c : loc) (path : string) : M unit := λ σ,
  let h := cellAt c σ in
  let content := default "" (configFiles h !! path) in
  (emit (WriteFile c path content) ;;;
   modify (setWorld (setDisk <[(Address (host h), path) := content]>))) σ.

(** Modelled from the spec: [hostConfiguredContainer.Configure] (section 4.4,
    "write exactly that set to the host"): one write per listed path, with
    the content the container cell holds for it. *)
Definition hcc_Configure (c : loc) (paths : list string) : M unit :=
  forEach paths (writeFile c).

(** Modelled from the spec: [containersState.CreateAndStart] (section 4.5,
    "push config files, ask the runtime to create the container, start it,
    record returned Status").  The status is recorded once the container has
    been started. *)
Definition CreateAndStart (s : mref) (n : string) : M unit := λ σ,
  match mapAt s σ !! n with
  | None => (inl (Errorf "can't create non-existing container"), σ)
  | Some c =>
      wrap ("failed creating container " +:+ n)
        (hcc_Configure c (rangeKeys (configFiles (cellAt c σ))) ;;;
         emit (Create c) ;;;
         emit (Start c) ;;;
         modify (λ σ1, let id := nextID (world σ1) in
                       setHeap <[c := withStatus {| exists_ := true; running := true; ID := id |}
                                        (cellAt c σ1)]>
                         (setWorld (λ w, bumpID (setDaemon <[id := true]> w)) σ1))) σ
  end.

Definition deleteFile (c : loc) (path : string) : M unit :=
  emit (DeleteFile c path) ;;;
  modify (λ σ, setWorld (setDisk (delete (Address (host (cellAt c σ)), path))) σ).

(** Modelled from the spec: [containersState.RemoveContainer] (section 4.5,
    "stop (if running), remove from the runtime, delete the config files it
    owns, drop the map entry. Idempotent if the container is already
    gone"). *)
Definition RemoveContainer (s : mref) (n : string) : M unit := λ σ,
  match mapAt s σ !! n with
  | None => (inr tt, σ)
  | Some c =>
      let h := cellAt c σ in
      let st := Status (container h) in
      wrap ("failed removing container " +:+ n)
        ((if exists_ st then
            (if running st then
               emit (Stop c) ;;; modify (setWorld (setDaemon <[ID st := false]>))
             else ret tt) ;;;
            emit (Remove c) ;;; modify (setWorld (setDaemon (delete (ID st))))
          else ret tt) ;;;
         forEach (rangeKeys (configFiles h)) (deleteFile c) ;;;
         modify (λ σ1, setMaps <[s := delete n (mapAt s σ1)]> σ1)) σ
  end.

(** Modelled from the spec: the refresh of one container (section 4.3, "the
    runtime client is queried on its assigned host to fill in Status.Exists
    and Status.Running and to read back the content of every path in
    configFiles"). A path the host does not have is dropped. *)
Definition hcc_refresh (c : loc) : M unit :=
  emit (Inspect c) ;;;
  (λ σ, forEach (rangeKeys (configFiles (cellAt c σ))) (λ p, emit (ReadFile c p)) σ) ;;;
  modify (λ σ,
    let h := cellAt c σ in
    let id := ID (Status (container h)) in
    let st := match daemon (world σ) !! id with
              | Some r => {| exists_ := true; running := r; ID := id |}
              | None => {| exists_ := false; running := false; ID := id |}
              end in
    let files := map_imap (λ p _, disk (world σ) !! (Address (host h), p)) (configFiles h) in
    setHeap <[c := withConfigFiles files (withStatus st h)]> σ).

(** Modelled from the spec: [containersState.CheckState] (section 4.5). *)
Definition CheckState (s : mref) : M unit := λ σ,
  forEach (rangeKeys (mapAt s σ))
    (λ n σ1, match mapAt s σ1 !! n with
             | None => (inr tt, σ1)
             | Some c => wrap ("failed checking container " +:+ n) (hcc_refresh c) σ1
             end) σ.

Definition exportHCC (h : hostConfiguredContainer) : HostConfiguredContainer :=
  {| HCC_Host := host h; HCC_Container := container h; HCC_ConfigFiles := configFiles h |}.

(** Modelled from the spec: [containersState.Export] (section 4.5). *)
Definition Export (s : mref) (σ : State) : gmap string HostConfiguredContainer :=
  (λ c, exportHCC (cellAt c σ)) <$> mapAt s σ.

(** ** containers.go *)

(** [Containers]: both slots are Go maps and may be nil. *)
Record Containers := {
  PreviousState : option (gmap string HostConfiguredContainer);
  DesiredState : option (gmap string HostConfiguredContainer) }.

(** [containers]: [New] builds [previousState] and [desiredState] as map
    objects and leaves [currentState] nil. *)
Record containers := {
  previousState : mref;
  currentState : option mref;
  desiredState : mref }.

(** [c.currentState[n]]: a nil map has no entries. *)
Definition currentAt (c : containers) (n : string) (σ : State) : option loc :=
  match currentState c with
  | None => None
  | Some m => mapAt m σ !! n
  end.

Definition desiredAt (c : containers) (n : string) (σ : State) : option loc :=
  mapAt (desiredState c) σ !! n.

(** [c.currentState[n] = d] *)
Definition publish (c : containers) (n : string) (d : loc) : M unit :=
  match currentState c with
  | None => fail (Panic "assignment to entry in nil map")
  | Some m => modify (λ σ, setMaps <[m := <[n := d]> (mapAt m σ)]> σ)
  end.

(** The test of the loop in [filesToUpdate]:
    [!exists || content != currentContent]. *)
Definition needsUpdate (d c : hostConfiguredContainer) (p : string) : bool :=
  match configFiles d !! p, configFiles c !! p with
  | Some content, Some currentContent => bool_decide (content ≠ currentContent)
  | Some _, None => true
  | None, _ => false
  end.

Definition filesToUpdate (d : hostConfiguredContainer) (c : option hostConfiguredContainer)
    : list string :=
  match c with
  | None => rangeKeys (configFiles d)
  | Some c => filter (λ p, needsUpdate d c p) (rangeKeys (configFiles d))
  end.

Definition ensureConfigured (c : containers) (n : string) : M unit := λ σ,
  match desiredAt c n σ with
  | None => (inr tt, σ)
  | Some d =>
      let r := currentAt c n σ in
      (wrap "failed creating config files"
         (hcc_Configure d (filesToUpdate (cellAt d σ) ((λ r, cellAt r σ) <$> r))) ;;;
       match r with
       | None => publish c n d
       | Some _ => ret tt
       end ;;;
       modify (λ σ1, setHeap <[default d r :=
                                 withConfigFiles (configFiles (cellAt d σ1))
                                   (cellAt (default d r) σ1)]> σ1)) σ
  end.

Definition ensureRunning (c : option loc) : M unit :=
  match c with
  | None => fail (Errorf "can't start non-existing container")
  | Some c => λ σ, if IsRunning (container (cellAt c σ)) then (inr tt, σ)
                   else hcc_Start c σ
  end.

Definition ensureExists (c : containers) (n : string) : M unit := λ σ,
  let r := currentAt c n σ in
  if match r with
     | Some r => Exists (container (cellAt r σ))
     | None => false
     end
  then (inr tt, σ)
  else
    (wrap "failed creating new container" (CreateAndStart (desiredState c) n) ;;;
     λ σ1, match desiredAt c n σ1 with
           | None => (inl (Panic "nil pointer dereference"), σ1)
           | Some d =>
               (match r with
                | None => publish c n d
                | Some _ => ret tt
                end ;;;
                modify (λ σ2, setHeap <[default d r :=
                                          withStatus (Status (container (cellAt d σ2)))
                                            (cellAt (default d r) σ2)]> σ2)) σ1
           end) σ.

Definition isUpdatable (c : containers) (n : string) : M unit := λ σ,
  match currentAt c n σ with
  | None => (inl (Errorf ("can't update non-existing container '" +:+ n +:+ "'")), σ)
  | Some _ =>
      match desiredAt c n σ with
      | None => (inl (Errorf ("can't update container '" +:+ n +:+
                              "', which is scheduler for removal")), σ)
      | Some _ => (inr tt, σ)
      end
  end.

(** [cmp.Diff]: the empty string exactly when the two values are equal. *)
Definition cmpDiff {A} `{EqDecision A} (x y : A) : string :=
  if decide (x = y) then "" else "-+".

Definition diffWith {A} `{EqDecision A} (f : hostConfiguredContainer → A)
    (c : containers) (n : string) : M string :=
  wrap "can't diff container" (isUpdatable c n) ;;;
  λ σ, match currentAt c n σ, desiredAt c n σ with
       | Some r, Some d => (inr (cmpDiff (f (cellAt r σ)) (f (cellAt d σ))), σ)
       | _, _ => (inl (Panic "nil pointer dereference"), σ)
       end.

Definition diffHost : containers → string → M string := diffWith host.

(** [c.currentState.RemoveContainer(n)] *)
Definition removeCurrent (c : containers) (n : string) : M unit :=
  match currentState c with
  | None => ret tt
  | Some m => RemoveContainer m n
  end.

Definition recreate (c : containers) (n : string) : M unit :=
  wrap "failed removing old container" (removeCurrent c n) ;;;
  CreateAndStart (desiredState c) n.

(** [c.currentState[n] = c.desiredState[n]] *)
Definition installDesired (c : containers) (n : string) : M unit := λ σ,
  match desiredAt c n σ with
  | None => (inl (Panic "nil pointer stored in current state"), σ)
  | Some d => publish c n d σ
  end.

(** The common body of [ensureHost] and [ensureContainer]. *)
Definition ensureSame (what : string) (diff : M string) (c : containers) (n : string) : M unit :=
  bind (wrap what diff) (λ d,
    if decide (d = "") then ret tt
    else wrap "failed updating container" (recreate c n) ;;; installDesired c n).

Definition ensureHost (c : containers) (n : string) : M unit :=
  ensureSame "failed to check host diff" (diffHost c n) c n.

Definition diffContainer : containers → string → M string :=
  diffWith (λ h, Config (container h)).

Definition ensureContainer (c : containers) (n : string) : M unit :=
  ensureSame "failed to check container diff" (diffContainer c n) c n.

(** The bodies of the three loops of [Execute]. *)
Definition pruneOrRevive (cur : mref) (n : string) : M unit := λ σ,
  match mapAt cur σ !! n with
  | None => (inr tt, σ)
  | Some r =>
      if negb (Exists (container (cellAt r σ)))
      then (inr tt, setMaps <[cur := delete n (mapAt cur σ)]> σ)
      else wrap "failed to start stopped container" (ensureRunning (Some r)) σ
  end.

Definition configureAndCreate (c : containers) (i : string) : M unit :=
  wrap ("failed configuring container " +:+ i) (ensureConfigured c i) ;;;
  wrap ("failed creating new container " +:+ i) (ensureExists c i).

Definition updateOrRemove (c : containers) (cur : mref) (i : string) : M unit := λ σ,
  match mapAt cur σ !! i with
  | None => (inr tt, σ)
  | Some _ =>
      (wrap ("failed updating host configuration of container " +:+ i) (ensureHost c i) ;;;
       wrap ("failed updating configuration for container " +:+ i) (ensureConfigured c i) ;;;
       wrap ("failed updating container " +:+ i) (ensureContainer c i) ;;;
       λ σ1, match desiredAt c i σ1 with
             | Some _ => (inr tt, σ1)
             | None => wrap "failed removing old container" (RemoveContainer cur i) σ1
             end) σ
  end.

Definition errNoCurrentState : error :=
  Errorf "can't execute without knowing current state of the containers".

Definition Execute (c : containers) : M unit :=
  match currentState c with
  | None => fail errNoCurrentState
  | Some cur =>
      (λ σ, forEach (rangeKeys (mapAt cur σ)) (pruneOrRevive cur) σ) ;;;
      (λ σ, forEach (rangeKeys (mapAt (desiredState c) σ)) (configureAndCreate c) σ) ;;;
      (λ σ, forEach (rangeKeys (mapAt cur σ)) (updateOrRemove c cur) σ)
  end.

(** [containers.CheckCurrentState]: the engine itself changes, its
    [currentState] field is assigned. *)
Definition CheckCurrentState (c : containers) (σ : State)
    : (error + unit) * containers * State :=
  let c' := match currentState c with
            | None => {| previousState := previousState c;
                         currentState := Some (previousState c);
                         desiredState := desiredState c |}
            | Some _ => c
            end in
  let r := match currentState c' with
           | None => (inr tt, σ)
           | Some m => CheckState m σ
           end in
  (r.1, c', r.2).

Definition ToExported (c : containers) (σ : State) : Containers :=
  {| PreviousState := Some (Export (previousState c) σ);
     DesiredState := Some (Export (desiredState c) σ) |}.

End Reconciler.

(** ** Validation and construction *)

Definition isAbsolute (p : string) : bool := String.prefix "/" p.

(** Modelled from the spec: the validation in [HostConfiguredContainer.New]
    (section 4.2 (b): "host reachability descriptor well-formed, config
    well-formed, mount paths absolute, names non-empty"). *)
Definition validateHCC (h : HostConfiguredContainer) : option error :=
  if decide (Name (Config (HCC_Container h)) = "") then Some (Errorf "name must be set")
  else if decide (Image (Config (HCC_Container h)) = "") then Some (Errorf "image must be set")
  else if decide (Address (HCC_Host h) = "") then Some (Errorf "host must be set")
  else if forallb isAbsolute (Mounts (Config (HCC_Container h))) then None
  else Some (Errorf "mount path must be absolute").

Definition importHCC (h : HostConfiguredContainer) : hostConfiguredContainer :=
  {| host := HCC_Host h; container := HCC_Container h; configFiles := HCC_ConfigFiles h |}.

Definition invalidEntry (e : string * HostConfiguredContainer) : Prop :=
  is_Some (validateHCC e.2).

#[global] Instance invalidEntry_dec e : Decision (invalidEntry e).
Proof. unfold invalidEntry. apply _. Defined.

(** Modelled from the spec: [ContainersState.New] (section 2, "[New()]
    validates and builds the internal" state): every entry is validated, a
    nil mapping counts as an empty one, and the outcome is a map value whose
    cells are still to be allocated. *)
Definition ContainersState_New (s : option (gmap string HostConfiguredContainer))
    : error + gmap string hostConfiguredContainer :=
  let m := default ∅ s in
  match list_find invalidEntry (map_to_list m) with
  | Some (_, (n, h)) =>
      inl (Wrapf ("failed creating container configuration " +:+ n)
             (default (Errorf "") (validateHCC h)))
  | None => inr (importHCC <$> m)
  end.

Definition errNoState : error :=
  Errorf "either current state or desired state must be defined".

Definition errNoContainers : error :=
  Errorf "either current state or desired state should have containers defined".

(** [Containers.Validate]; the receiver is a pointer and may be nil. *)
Definition Validate (c : option Containers) : option error :=
  match c with
  | None => Some errNoState
  | Some c =>
      match PreviousState c, DesiredState c with
      | None, None => Some errNoState
      | _, _ =>
          match ContainersState_New (PreviousState c) with
          | inl err => Some err
          | inr previousState =>
              match ContainersState_New (DesiredState c) with
              | inl err => Some err
              | inr desiredState =>
                  if bool_decide (size previousState = 0 ∧ size desiredState = 0)
                  then Some errNoContainers
                  else None
              end
          end
      end
  end.

(** Allocation of a validated state: one fresh cell per entry and one fresh
    map object. *)
Definition allocCells (m : gmap string hostConfiguredContainer)
    (hp : gmap loc hostConfiguredContainer)
    : gmap string loc * gmap loc hostConfiguredContainer :=
  foldr (λ e acc, let p := fresh (dom acc.2) in (<[e.1 := p]> acc.1, <[p := e.2]> acc.2))
        (∅, hp) (map_to_list m).

Definition allocState (m : gmap string hostConfiguredContainer) (σ : State) : mref * State :=
  let a := allocCells m (heap σ) in
  let r := fresh (dom (maps σ)) in
  (r, {| heap := a.2; maps := <[r := a.1]> (maps σ); world := world σ; trace := trace σ |}).

(** [Containers.New] *)
Definition New (c : option Containers) (σ : State) : (error + containers) * State :=
  match Validate c with
  | Some err => (inl (Wrapf "failed to validate containers configuration" err), σ)
  | None =>
      match c with
      | None => (inl (Panic "nil pointer dereference"), σ)
      | Some c =>
          match ContainersState_New (PreviousState c), ContainersState_New (DesiredState c) with
          | inr previousState, inr desiredState =>
              let p := allocState previousState σ in
              let d := allocState desiredState p.2 in
              (inr {| previousState := p.1; currentState := None; desiredState := d.1 |}, d.2)
          | _, _ => (inl (Panic "interface conversion: interface is nil"), σ)
          end
      end
  end.

(** ** Persisted state

    [FromYaml] hands the bytes to [yaml.Unmarshal] of sigs.k8s.io/yaml, which
    decodes through encoding/json: a key of the document that matches no
    field of the target struct is skipped (only [yaml.UnmarshalStrict]
    refuses it).  The model starts from the parsed document: null, or a
    top-level mapping whose values either decode as a containers state or do
    not. *)
Inductive node :=
| NState (s : option (gmap string HostConfiguredContainer))
| NOther (raw : string).

Definition decodeState (o : option node)
    : error + option (gmap string HostConfiguredContainer) :=
  match o with
  | None => inr None
  | Some (NState s) => inr s
  | Some (NOther _) => inl (Errorf "json: cannot unmarshal into Go value of type container.ContainersState")
  end.

Definition yamlUnmarshal (doc : option (gmap string node)) : error + option Containers :=
  match doc with
  | None => inr None
  | Some fields =>
      match decodeState (fields !! "previousState"), decodeState (fields !! "desiredState") with
      | inr p, inr d => inr (Some {| PreviousState := p; DesiredState := d |})
      | inl e, _ | _, inl e => inl e
      end
  end.

Definition FromYaml (c : option (gmap string node)) (σ : State) : (error + containers) * State :=
  match yamlUnmarshal c with
  | inl err => (inl (Wrapf "failed to parse input yaml" err), σ)
  | inr cs =>
      match New cs σ with
      | (inl err, σ') => (inl (Wrapf "failed to create containers object" err), σ')
      | r => r
      end
  end.

End PkgContainer.

(** * The Kubernetes certificate schema ([pkg/pki/kubernetes.go]) *)

Module PkgPki.

#[local] Open Scope string_scope.

Definition KubernetesCACN : string := "kubernetes-ca".
Definition KubernetesFrontProxyCACN : string := "kubernetes-front-proxy-ca".

(** [Certificate] is declared next to the schema, outside the sources at
    hand; these are the fields the schema sets, and the outputs. *)
Record Certificate := {
  CommonName : string;
  Organization : string;
  IPAddresses : list string;
  DNSNames : list string;
  KeyUsage : list string;
  X509Certificate : string;
  PrivateKey : string }.

(** [Certificate{}] *)
Definition emptyCertificate : Certificate :=
  {| CommonName := ""; Organization := ""; IPAddresses := []; DNSNames := [];
     KeyUsage := []; X509Certificate := ""; PrivateKey := "" |}.

Record KubeAPIServer := {
  KAS_Certificate : Certificate;
  ExternalNames : list string;
  ServerIPs : list string;
  ClusterDomain : string;
  ServerCertificate : option Certificate;
  KubeletCertificate : option Certificate;
  FrontProxyClientCertificate : option Certificate }.

Record Kubernetes := {
  K_Certificate : Certificate;
  CA : option Certificate;
  FrontProxyCA : option Certificate;
  K_KubeAPIServer : option KubeAPIServer;
  AdminCertificate : option Certificate;
  KubeControllerManagerCertificate : option Certificate;
  KubeSchedulerCertificate : option Certificate;
  ServiceAccountCertificate : option Certificate }.

(** The certificates a [Kubernetes] value holds by pointer. *)
Inductive slot :=
| SlotCA | SlotFrontProxyCA
| SlotServer | SlotKubelet | SlotFrontProxyClient
| SlotAdmin | SlotControllerManager | SlotScheduler | SlotServiceAccount.

(** An element of an inheritance chain: a pointer to a certificate built on
    the spot, [&k.Certificate], [&k.KubeAPIServer.Certificate], or one of the
    pointers held by [k]. *)
Inductive certRef :=
| Inline (c : Certificate)
| Embedded
| EmbeddedAPIServer
| Field (s : slot).

Record certificateRequest := {
  Target : slot;
  Issuer : option certRef;
  Certificates : list certRef }.

Section Schema.

(** [serverUsage], [clientUsage] and [caCertificate] are declared with
    [Certificate]. *)
Variables serverUsage clientUsage : list string.
Variable caCertificate : string → Certificate.

(** [if p == nil { p = &Certificate{} }] *)
Definition orEmpty (p : option Certificate) : option Certificate :=
  Some (default emptyCertificate p).

Definition setCA (k : Kubernetes) (v : option Certificate) : Kubernetes :=
  {| K_Certificate := K_Certificate k; CA := v; FrontProxyCA := FrontProxyCA k;
     K_KubeAPIServer := K_KubeAPIServer k; AdminCertificate := AdminCertificate k;
     KubeControllerManagerCertificate := KubeControllerManagerCertificate k;
     KubeSchedulerCertificate := KubeSchedulerCertificate k;
     ServiceAccountCertificate := ServiceAccountCertificate k |}.

Definition setFrontProxyCA (k : Kubernetes) (v : option Certificate) : Kubernetes :=
  {| K_Certificate := K_Certificate k; CA := CA k; FrontProxyCA := v;
     K_KubeAPIServer := K_KubeAPIServer k; AdminCertificate := AdminCertificate k;
     KubeControllerManagerCertificate := KubeControllerManagerCertificate k;
     KubeSchedulerCertificate := KubeSchedulerCertificate k;
     ServiceAccountCertificate := ServiceAccountCertificate k |}.

Definition setKubeAPIServer (k : Kubernetes) (v : option KubeAPIServer) : Kubernetes :=
  {| K_Certificate := K_Certificate k; CA := CA k; FrontProxyCA := FrontProxyCA k;
     K_KubeAPIServer := v; AdminCertificate := AdminCertificate k;
     KubeControllerManagerCertificate := KubeControllerManagerCertificate k;
     KubeSchedulerCertificate := KubeSchedulerCertificate k;
     ServiceAccountCertificate := ServiceAccountCertificate k |}.

Definition setServerCertificate (a : KubeAPIServer) (v : option Certificate) : KubeAPIServer :=
  {| KAS_Certificate := KAS_Certificate a; ExternalNames := ExternalNames a;
     ServerIPs := ServerIPs a; ClusterDomain := ClusterDomain a;
     ServerCertificate := v; KubeletCertificate := KubeletCertificate a;
     FrontProxyClientCertificate := FrontProxyClientCertificate a |}.

Definition kubernetesCACR (k : Kubernetes) (rootCA : option Certificate)
    (defaultCertificate : Certificate) : Kubernetes * certificateRequest :=
  (setCA k (orEmpty (CA k)),
   {| Target := SlotCA;
      Issuer := Inline <$> rootCA;
      Certificates := [Inline defaultCertificate; Embedded;
                       Inline (caCertificate KubernetesCACN); Field SlotCA] |}).

Definition kubernetesFrontProxyCACR (k : Kubernetes) (rootCA : option Certificate)
    (defaultCertificate : Certificate) : Kubernetes * certificateRequest :=
  (setFrontProxyCA k (orEmpty (FrontProxyCA k)),
   {| Target := SlotFrontProxyCA;
      Issuer := Inline <$> rootCA;
      Certificates := [Inline defaultCertificate; Embedded;
                       Inline (caCertificate KubernetesFrontProxyCACN);
                       Field SlotFrontProxyCA] |}).

Definition defaultDNSNames : list string :=
  ["localhost"; "kubernetes"; "kubernetes.default"; "kubernetes.default.svc";
   "kubernetes.default.svc.cluster"; "kubernetes.default.svc.cluster.local"].

Definition defaultKubeAPIServerServerCertificate (k : option KubeAPIServer) : Certificate :=
  let c := {| CommonName := "kube-apiserver";
              Organization := "";
              IPAddresses := ["127.0.0.1"];
              DNSNames := defaultDNSNames;
              KeyUsage := serverUsage;
              X509Certificate := ""; PrivateKey := "" |} in
  match k with
  | Some k =>
      {| CommonName := CommonName c; Organization := Organization c;
         IPAddresses := IPAddresses c ++ ServerIPs k;
         DNSNames := DNSNames c ++ ExternalNames k;
         KeyUsage := KeyUsage c;
         X509Certificate := X509Certificate c; PrivateKey := PrivateKey c |}
  | None => c
  end.

(** [k.KubeAPIServer] is dereferenced: on a nil pointer the function panics,
    which is [None] here. *)
Definition kubeAPIServerServerCR (k : Kubernetes) (defaultCertificate : Certificate)
    : option (Kubernetes * certificateRequest) :=
  match K_KubeAPIServer k with
  | None => None
  | Some a =>
      let a' := setServerCertificate a (orEmpty (ServerCertificate a)) in
      Some (setKubeAPIServer k (Some a'),
            {| Target := SlotServer;
               Issuer := (λ _, Field SlotCA) <$> CA k;
               Certificates :=
                 [Inline defaultCertificate; Embedded; EmbeddedAPIServer;
                  Inline (defaultKubeAPIServerServerCertificate (Some a'));
                  Field SlotServer] |})
  end.

Definition emptyKubeAPIServer : KubeAPIServer :=
  {| KAS_Certificate := emptyCertificate; ExternalNames := []; ServerIPs := [];
     ClusterDomain := ""; ServerCertificate := None; KubeletCertificate := None;
     FrontProxyClientCertificate := None |}.

(** The step of [Generate] between the two batches:
    [if k.KubeAPIServer == nil { k.KubeAPIServer = &KubeAPIServer{} }]. *)
Definition ensureKubeAPIServer (k : Kubernetes) : Kubernetes :=
  setKubeAPIServer k (Some (default emptyKubeAPIServer (K_KubeAPIServer k))).

End Schema.

End PkgPki.

(** * The control plane ([pkg/controlplane/controlplane.go]) *)

Module PkgControlplane.

Import PkgContainer.

#[local] Open Scope string_scope.

(** Modelled from the spec: [util.PickString], the first non-empty of its
    arguments ("values in given config has priority"). *)
Definition PickString (a b : string) : string :=
  if decide (a = "") then b else a.

Fixpoint errorString (e : error) : string :=
  match e with
  | Errorf m => m
  | Wrapf m c => m +:+ ": " +:+ errorString c
  | Panic m => "panic: " +:+ m
  end.

(** Modelled from the spec: [util.ValidateError] collects errors and
    [Return] gives nil when there is none. *)
Definition Return (errors : list error) : option error :=
  match errors with
  | [] => None
  | _ => Some (Errorf (String.concat ", " (errorString <$> errors)))
  end.

Record Common := {
  Common_Image : string;
  KubernetesCACertificate : string;
  FrontProxyCACertificate : string }.

Definition emptyCommon : Common :=
  {| Common_Image := ""; KubernetesCACertificate := ""; FrontProxyCACertificate := "" |}.

(** [client.Config], [KubeAPIServer], [KubeControllerManager] and
    [KubeScheduler] are declared elsewhere; these are the fields
    [controlplane.go] reads and writes. *)
Record ClientConfig := { CACertificate : string; Server : string }.

Record KubeAPIServer := {
  BindAddress : string;
  AdvertiseAddress : string;
  SecurePort : nat;
  KAS_Common : option Common;
  KAS_Host : option Host }.

Record KubeControllerManager := {
  KCM_Kubeconfig : ClientConfig;
  KCM_Common : option Common;
  KCM_Host : option Host }.

Record KubeScheduler := {
  KS_Kubeconfig : ClientConfig;
  KS_Common : option Common;
  KS_Host : option Host }.

Record Controlplane := {
  CP_Common : option Common;
  SSH : option string;
  APIServerAddress : string;
  APIServerPort : nat;
  CP_KubeAPIServer : KubeAPIServer;
  CP_KubeControllerManager : KubeControllerManager;
  CP_KubeScheduler : KubeScheduler;
  CP_State : option (option (gmap string HostConfiguredContainer)) }.

(** [controlplane]: the interface value [containers] is nil when no engine
    was stored in it. *)
Record controlplane := { cp_containers : option containers }.

Section Controlplane.

(** [host.BuildConfig] and the constructors of the three components are not
    part of the sources at hand. *)
Variable BuildConfig : Host → Host → Host.
Variables kubeAPIServer kubeControllerManager kubeScheduler : Type.
Variable KubeAPIServer_New : KubeAPIServer → error + kubeAPIServer.
Variable KubeControllerManager_New : KubeControllerManager → error + kubeControllerManager.
Variable KubeScheduler_New : KubeScheduler → error + kubeScheduler.
Variable kas_ToHostConfiguredContainer : kubeAPIServer → error + HostConfiguredContainer.
Variable kcm_ToHostConfiguredContainer : kubeControllerManager → error + HostConfiguredContainer.
Variable ks_ToHostConfiguredContainer : kubeScheduler → error + HostConfiguredContainer.

Definition withComponents (c : Controlplane) (co : option Common) (a : KubeAPIServer)
    (m : KubeControllerManager) (s : KubeScheduler) : Controlplane :=
  {| CP_Common := co; SSH := SSH c; APIServerAddress := APIServerAddress c;
     APIServerPort := APIServerPort c; CP_KubeAPIServer := a;
     CP_KubeControllerManager := m; CP_KubeScheduler := s; CP_State := CP_State c |}.

(** [c.Common] is dereferenced: [None] is the panic on a nil pointer. *)
Definition propagateKubeconfig (c : Controlplane) (d : ClientConfig) : option ClientConfig :=
  match CP_Common c with
  | None => None
  | Some co =>
      Some {| CACertificate := PickString (CACertificate d) (KubernetesCACertificate co);
              Server := if bool_decide (APIServerAddress c ≠ "" ∧ APIServerPort c ≠ 0)
                        then PickString (Server d)
                               (APIServerAddress c +:+ ":" +:+ pretty (APIServerPort c))
                        else Server d |}
  end.

Definition propagateHost (c : Controlplane) (h : option Host) : option Host :=
  Some (BuildConfig (default {| Address := ""; Credentials := "" |} h)
          {| Address := ""; Credentials := default "" (SSH c) |}).

(** [propagateCommon] fills the [Common] its argument points to, and makes
    sure [c.Common] is set; a nil argument is replaced by a local value that
    is dropped on return. *)
Definition propagateCommon (c : Controlplane) (co : option Common)
    : option Common * option Common :=
  let cc := default emptyCommon (CP_Common c) in
  (Some cc,
   (λ co, {| Common_Image := PickString (Common_Image co) (Common_Image cc);
             KubernetesCACertificate :=
               PickString (KubernetesCACertificate co) (KubernetesCACertificate cc);
             FrontProxyCACertificate :=
               PickString (FrontProxyCACertificate co) (FrontProxyCACertificate cc) |})
   <$> co).

Definition buildKubeScheduler (c : Controlplane) : option Controlplane :=
  let k := CP_KubeScheduler c in
  match propagateKubeconfig c (KS_Kubeconfig k) with
  | None => None
  | Some kc =>
      let p := propagateCommon c (KS_Common k) in
      Some (withComponents c p.1 (CP_KubeAPIServer c) (CP_KubeControllerManager c)
              {| KS_Kubeconfig := kc; KS_Common := p.2;
                 KS_Host := propagateHost c (KS_Host k) |})
  end.

Definition buildKubeControllerManager (c : Controlplane) : option Controlplane :=
  let k := CP_KubeControllerManager c in
  match propagateKubeconfig c (KCM_Kubeconfig k) with
  | None => None
  | Some kc =>
      let p := propagateCommon c (KCM_Common k) in
      Some (withComponents c p.1 (CP_KubeAPIServer c)
              {| KCM_Kubeconfig := kc; KCM_Common := p.2;
                 KCM_Host := propagateHost c (KCM_Host k) |}
              (CP_KubeScheduler c))
  end.

Definition buildKubeAPIServer (c : Controlplane) : Controlplane :=
  let k := CP_KubeAPIServer c in
  let p := propagateCommon c (KAS_Common k) in
  withComponents c p.1
    {| BindAddress :=
         if bool_decide (BindAddress k = "" ∧ APIServerAddress c ≠ "")
         then APIServerAddress c else BindAddress k;
       AdvertiseAddress :=
         if bool_decide (AdvertiseAddress k = "" ∧ APIServerAddress c ≠ "")
         then APIServerAddress c else AdvertiseAddress k;
       SecurePort :=
         if bool_decide (SecurePort k = 0 ∧ APIServerPort c ≠ 0)
         then APIServerPort c else SecurePort k;
       KAS_Common := p.2;
       KAS_Host := propagateHost c (KAS_Host k) |}
    (CP_KubeControllerManager c) (CP_KubeScheduler c).

Definition buildComponents (c : Controlplane) : option Controlplane :=
  buildKubeControllerManager (buildKubeAPIServer c) ≫= buildKubeScheduler.

(** The error side of a result, wrapped as [Validate] does. *)
Definition failure {A} (msg : string) (r : error + A) : list error :=
  match r with
  | inl err => [Wrapf msg err]
  | inr _ => []
  end.

(** [Controlplane.Validate]; the receiver is filled in on the way. *)
Definition Validate (c : Controlplane) : option (Controlplane * option error) :=
  c ← buildComponents c;
  let kas := KubeAPIServer_New (CP_KubeAPIServer c) in
  let kcm := KubeControllerManager_New (CP_KubeControllerManager c) in
  let ks := KubeScheduler_New (CP_KubeScheduler c) in
  match kas, kcm, ks with
  | inr kas, inr kcm, inr ks =>
      Some (c, Return
        (failure "failed to build kube-apiserver container configuration"
           (kas_ToHostConfiguredContainer kas) ++
         failure "failed to build kube-controller-manager container configuration"
           (kcm_ToHostConfiguredContainer kcm) ++
         failure "failed to build kube-scheduler container configuration"
           (ks_ToHostConfiguredContainer ks)))
  | _, _, _ =>
      Some (c, Return
        (failure "failed to verify kube-apiserver configuration" kas ++
         failure "failed to verify kube-controller-manager" kcm ++
         failure "failed to verify kube-scheduler configuration" ks))
  end.

(** [x, _ := f()] followed by a use of [x]: a nil [x] panics. *)
Definition must {A} (r : error + A) : option A :=
  match r with
  | inl _ => None
  | inr a => Some a
  end.

(** [Controlplane.New].  [None] stands for a panic; the errors of both calls
    of [cc.New()] are dropped, as in the code, and the second result is
    stored whatever it is. *)
Definition New (c : Controlplane) (σ : State)
    : option ((error + controlplane) * State) :=
  v ← Validate c;
  match v.2 with
  | Some err =>
      Some (inl (Wrapf "failed to validate controlplane configuration" err), σ)
  | None =>
      let c := v.1 in
      let s := default (Some ∅) (CP_State c) in
      let co := PkgContainer.New (Some {| PreviousState := s; DesiredState := None |}) σ in
      c ← buildComponents c;
      kas ← must (KubeAPIServer_New (CP_KubeAPIServer c));
      kasHcc ← must (kas_ToHostConfiguredContainer kas);
      kcm ← must (KubeControllerManager_New (CP_KubeControllerManager c));
      kcmHcc ← must (kcm_ToHostConfiguredContainer kcm);
      ks ← must (KubeScheduler_New (CP_KubeScheduler c));
      ksHcc ← must (ks_ToHostConfiguredContainer ks);
      let desired : gmap string HostConfiguredContainer :=
        {[ "kube-apiserver" := kasHcc;
           "kube-controller-manager" := kcmHcc;
           "kube-scheduler" := ksHcc ]} in
      let co := PkgContainer.New
                  (Some {| PreviousState := s; DesiredState := Some desired |}) co.2 in
      Some (inr {| cp_containers := must co.1 |}, co.2)
  end.

End Controlplane.

End PkgControlplane.

Import PkgContainer.

(** * Properties of states and runs *)

(** ** Footprints *)

(** The engine is followed one name at a time.  A name [x] owns the cells in
    [own]: every cell its entries point to is one of them, and a step that
    works for [x] changes no other cell, no entry of another name and logs
    events of its own cells only. *)

Definition owns (own : loc → Prop) (cur des : mref) (x : string) (σ : State) : Prop :=
  ∀ p, mapAt cur σ !! x = Some p ∨ mapAt des σ !! x = Some p → own p.

Definition frame (own : loc → Prop) (cur : mref) (x : string) (σ σ' : State) : Prop :=
  (∀ m, m ≠ cur → mapAt m σ' = mapAt m σ) ∧
  (∀ z, z ≠ x → mapAt cur σ' !! z = mapAt cur σ !! z) ∧
  (∀ p, mapAt cur σ' !! x = Some p → own p) ∧
  (∀ p, ¬ own p → heap σ' !! p = heap σ !! p) ∧
  (∃ evs, trace σ' = trace σ ++ evs ∧ Forall (λ e, own (eventCell e)) evs).

Definition framed (own : loc → Prop) (cur des : mref) (x : string) {A} (m : M A) : Prop :=
  ∀ σ a σ', owns own cur des x σ → m σ = (inr a, σ') → frame own cur x σ σ'.

(** ** What the operations leave behind *)

Definition started (h : hostConfiguredContainer) (id : nat) : hostConfiguredContainer :=
  withStatus {| exists_ := true; running := true; ID := id |} h.

Definition writes (c : loc) (h : hostConfiguredContainer) (paths : list string) : list event :=
  map (λ p, WriteFile c p (default ""%string (configFiles h !! p))) paths.

Definition removal (rank : string → nat) (c : loc) (h : hostConfiguredContainer) : list event :=
  (if exists_ (Status (container h))
   then (if running (Status (container h)) then [Stop c] else []) ++ [Remove c]
   else []) ++ map (DeleteFile c) (rangeKeys rank (configFiles h)).

(** ** Names and the cells they own *)

(** What the engine knows about one name: its entries in the current and in
    the desired map and the cells those point to. *)
Record View := {
  vcur : option loc;
  vdes : option loc;
  vcurCell : option hostConfiguredContainer;
  vdesCell : option hostConfiguredContainer }.

Definition viewOf (cur des : mref) (n : string) (σ : State) : View :=
  {| vcur := mapAt cur σ !! n;
     vdes := mapAt des σ !! n;
     vcurCell := mapAt cur σ !! n ≫= (heap σ !!.);
     vdesCell := mapAt des σ !! n ≫= (heap σ !!.) |}.

(** Every cell reachable from a name is owned by that name. *)
Definition Owned (own : string → loc → Prop) (cur des : mref) (σ : State) : Prop :=
  ∀ n, owns (own n) cur des n σ.

Definition ownDisjoint (own : string → loc → Prop) : Prop :=
  ∀ n m p, own n p → own m p → n = m.

(** A stretch of execution that leaves the name [n] alone. *)
Definition away (own : string → loc → Prop) (cur des : mref) (n : string)
    (σ σ' : State) : Prop :=
  viewOf cur des n σ' = viewOf cur des n σ ∧
  ∃ evs, trace σ' = trace σ ++ evs ∧ Forall (λ e, ¬ own n (eventCell e)) evs.

(** ** Settled states *)

(** A name is settled when it is in neither map, or in both with a running
    current cell that agrees with the desired one. *)
Definition SettledV (v : View) : Prop :=
  match vcur v, vdes v with
  | None, None => True
  | Some _, Some _ =>
      ∃ hc hd, vcurCell v = Some hc ∧ vdesCell v = Some hd ∧
        IsRunning (container hc) = true ∧
        host hc = host hd ∧
        Config (container hc) = Config (container hd) ∧
        configFiles hc = configFiles hd
  | _, _ => False
  end.

Definition Settled (c : containers) (σ : State) : Prop :=
  ∃ cur, currentState c = Some cur ∧
         ∀ n, SettledV (viewOf cur (desiredState c) n σ).

(** ** What each pass establishes for a name *)

(** The cells a name points to are allocated. *)
Definition WFV (v : View) : Prop :=
  (is_Some (vcur v) → is_Some (vcurCell v)) ∧
  (is_Some (vdes v) → is_Some (vdesCell v)).

(** A desired cell that is not the current one does not claim a stopped
    container: its status is unset, or was recorded by a creation. *)
Definition FreshV (v : View) : Prop :=
  ∀ hd, vdesCell v = Some hd → vcur v ≠ vdes v →
        Exists (container hd) = true → IsRunning (container hd) = true.

Definition RunV (v : View) : Prop :=
  ∀ hc, vcurCell v = Some hc → IsRunning (container hc) = true.

Definition ConfiguredV (v : View) : Prop :=
  ∃ hc hd, vcurCell v = Some hc ∧ vdesCell v = Some hd ∧
    IsRunning (container hc) = true ∧ configFiles hc = configFiles hd.

(** ** The states [Execute] runs in *)

Definition ownerAt (cur des : mref) (σ : State) (n : string) (p : loc) : Prop :=
  mapAt cur σ !! n = Some p ∨ mapAt des σ !! n = Some p.

(** Distinct names share no container cell. *)
Definition noClash (n : string) (p : loc) (m : gmap string loc) : Prop :=
  map_Forall (λ n' p', p = p' → n = n') m.

Definition NoSharing (cur des : mref) (σ : State) : Prop :=
  map_Forall (λ n p, noClash n p (mapAt cur σ) ∧ noClash n p (mapAt des σ)) (mapAt cur σ) ∧
  map_Forall (λ n p, noClash n p (mapAt cur σ) ∧ noClash n p (mapAt des σ)) (mapAt des σ).

Definition allocated (σ : State) (m : gmap string loc) : Prop :=
  map_Forall (λ _ p, is_Some (heap σ !! p)) m.

(** A desired cell that is not the current one does not claim a stopped
    container. *)
Definition freshCell (σ : State) (current : gmap string loc) (n : string) (d : loc) : Prop :=
  current !! n ≠ Some d →
  match heap σ !! d with
  | Some hd => Exists (container hd) = true → IsRunning (container hd) = true
  | None => True
  end.

(** The states [Execute] is run in: built by [New], refreshed by
    [CheckCurrentState], possibly already run through [Execute]. *)
Definition WellFormed (c : containers) (σ : State) : Prop :=
  match currentState c with
  | None => False
  | Some cur =>
      cur ≠ desiredState c ∧
      NoSharing cur (desiredState c) σ ∧
      allocated σ (mapAt cur σ) ∧
      allocated σ (mapAt (desiredState c) σ) ∧
      map_Forall (freshCell σ (mapAt cur σ)) (mapAt (desiredState c) σ)
  end.

#[global] Instance noClash_dec n p m : Decision (noClash n p m).
Proof. unfold noClash. apply _. Defined.

#[global] Instance NoSharing_dec cur des σ : Decision (NoSharing cur des σ).
Proof. unfold NoSharing. apply _. Defined.

#[global] Instance allocated_dec σ m : Decision (allocated σ m).
Proof. unfold allocated. apply _. Defined.

#[global] Instance freshCell_dec σ current n d : Decision (freshCell σ current n d).
Proof. unfold freshCell. destruct (heap σ !! d); apply _. Defined.

#[global] Instance WellFormed_dec c σ : Decision (WellFormed c σ).
Proof. unfold WellFormed. destruct (currentState c); apply _. Defined.

Definition WellFormedV (c : containers) (σ : State) : Prop :=
  ∃ cur, currentState c = Some cur ∧ cur ≠ desiredState c ∧
         (∀ n m p, ownerAt cur (desiredState c) σ n p →
                   ownerAt cur (desiredState c) σ m p → n = m) ∧
         ∀ n, WFV (viewOf cur (desiredState c) n σ) ∧
              FreshV (viewOf cur (desiredState c) n σ).

(** ** The events of a run *)

Definition mkView (r d : loc) (hc hd : hostConfiguredContainer) : View :=
  {| vcur := Some r; vdes := Some d; vcurCell := Some hc; vdesCell := Some hd |}.

(** The events logged between two states. *)
Definition since (σ σ' : State) (evs : list event) : Prop :=
  trace σ' = trace σ ++ evs.

(** The events of the cells [cells] logged between two states. *)
Definition eventsOf (cells : list loc) (evs : list event) : list event :=
  filter (λ e, eventCell e ∈ cells) evs.

Definition logged (cells : list loc) (σ σ' : State) (evs : list event) : Prop :=
  ∃ all, since σ σ' all ∧ eventsOf cells all = evs.

(** The cell pass 1 leaves behind for an existing container. *)
Definition revived (hc : hostConfiguredContainer) : hostConfiguredContainer :=
  if IsRunning (container hc) then hc
  else started hc (ID (Status (container hc))).

(** ** Errors and empty configurations *)

Definition isWrapped (e : error) : Prop :=
  match e with
  | Wrapf _ _ => True
  | _ => False
  end.

Definition absentOrEmpty (s : option (gmap string HostConfiguredContainer)) : Prop :=
  s = None ∨ s = Some ∅.

(** ** Allocation *)

Definition allocStep (e : string * hostConfiguredContainer)
    (acc : gmap string loc * gmap loc hostConfiguredContainer)
    : gmap string loc * gmap loc hostConfiguredContainer :=
  let p := fresh (dom acc.2) in (<[e.1 := p]> acc.1, <[p := e.2]> acc.2).

(** ** Scenarios of the specification *)

Section Scenarios.
#[local] Open Scope string_scope.

Definition rank0 : string → nat := λ _, 0.

Definition hostH1 : Host := {| Address := "h1"; Credentials := "key" |}.
Definition hostH2 : Host := {| Address := "h2"; Credentials := "key" |}.

Definition configOf (image : string) : ContainerConfig :=
  {| Name := "app"; Image := image; Args := []; Mounts := ["/etc/app"] |}.

Definition runningAs (id : nat) : ContainerStatus :=
  {| exists_ := true; running := true; ID := id |}.

Definition cell (h : Host) (image : string) (st : ContainerStatus)
    (files : gmap string string) : hostConfiguredContainer :=
  {| host := h; container := {| Config := configOf image; Status := st |};
     configFiles := files |}.

Definition exported (h : Host) (image : string) (st : ContainerStatus)
    (files : gmap string string) : HostConfiguredContainer :=
  {| HCC_Host := h; HCC_Container := {| Config := configOf image; Status := st |};
     HCC_ConfigFiles := files |}.

Definition quietWorld (d : gmap nat bool) (f : gmap (string * string) string) : World :=
  {| daemon := d; disk := f; nextID := 10; healthy := λ _, true |}.

Definition emptyState : State :=
  {| heap := ∅; maps := ∅; world := quietWorld ∅ ∅; trace := [] |}.

(** The engine every scenario uses once [CheckCurrentState] has run: map 0
    is the previous and current state, map 1 the desired state. *)
Definition engine : containers :=
  {| previousState := 0; currentState := Some 0; desiredState := 1 |}.

Definition freshEngine : containers :=
  {| previousState := 0; currentState := None; desiredState := 1 |}.

(** Scenario 5 of the specification: [a] and [b] run, only [a] is desired. *)
Definition deletion : State :=
  {| heap := {[ 1 := cell hostH1 "img" (runningAs 1) ∅;
                2 := cell hostH1 "img" (runningAs 2) ∅;
                3 := cell hostH1 "img" noStatus ∅ ]};
     maps := {[ 0 := {[ "a" := 1; "b" := 2 ]}; 1 := {[ "a" := 3 ]} ]};
     world := quietWorld {[ 1 := true; 2 := true ]} ∅;
     trace := [] |}.

(** Scenario 1: nothing runs, [a] is desired. *)
Definition coldStart : State :=
  {| heap := {[ 1 := cell hostH1 "img" noStatus {[ "/c.yaml" := "x" ]} ]};
     maps := {[ 0 := ∅; 1 := {[ "a" := 1 ]} ]};
     world := quietWorld ∅ ∅;
     trace := [] |}.

(** Scenario 3: [a] runs with [/c.yaml] = "x", desired is "y". *)
Definition fileDrift : State :=
  {| heap := {[ 1 := cell hostH1 "img" (runningAs 1) {[ "/c.yaml" := "x" ]};
                2 := cell hostH1 "img" noStatus {[ "/c.yaml" := "y" ]} ]};
     maps := {[ 0 := {[ "a" := 1 ]}; 1 := {[ "a" := 2 ]} ]};
     world := quietWorld {[ 1 := true ]} {[ ("h1", "/c.yaml") := "x" ]};
     trace := [] |}.

(** Scenario 4 with a new image on top: [a] runs on h1, desired on h2. *)
Definition migration : State :=
  {| heap := {[ 1 := cell hostH1 "img" (runningAs 1) {[ "/c.yaml" := "x" ]};
                2 := cell hostH2 "img2" noStatus {[ "/c.yaml" := "x" ]} ]};
     maps := {[ 0 := {[ "a" := 1 ]}; 1 := {[ "a" := 2 ]} ]};
     world := quietWorld {[ 1 := true ]} {[ ("h1", "/c.yaml") := "x" ]};
     trace := [] |}.

Definition emptyConfiguration : Containers :=
  {| PreviousState := Some ∅; DesiredState := None |}.

Definition documentFields : gmap string node :=
  {[ "desiredState" := NState (Some {[ "a" := exported hostH1 "img" noStatus ∅ ]}) ]}.

Definition documentWithUnknownKey : gmap string node :=
  <[ "bogus" := NOther "1" ]> documentFields.

Definition invalidEntryState : gmap string HostConfiguredContainer :=
  {[ "ghost" := exported hostH1 "" noStatus ∅ ]}.

Definition plainControlplane : PkgControlplane.Controlplane :=
  {| PkgControlplane.CP_Common := None;
     PkgControlplane.SSH := None;
     PkgControlplane.APIServerAddress := "";
     PkgControlplane.APIServerPort := 0;
     PkgControlplane.CP_KubeAPIServer :=
       {| PkgControlplane.BindAddress := ""; PkgControlplane.AdvertiseAddress := "";
          PkgControlplane.SecurePort := 0; PkgControlplane.KAS_Common := None;
          PkgControlplane.KAS_Host := None |};
     PkgControlplane.CP_KubeControllerManager :=
       {| PkgControlplane.KCM_Kubeconfig :=
            {| PkgControlplane.CACertificate := ""; PkgControlplane.Server := "" |};
          PkgControlplane.KCM_Common := None; PkgControlplane.KCM_Host := None |};
     PkgControlplane.CP_KubeScheduler :=
       {| PkgControlplane.KS_Kubeconfig :=
            {| PkgControlplane.CACertificate := ""; PkgControlplane.Server := "" |};
          PkgControlplane.KS_Common := None; PkgControlplane.KS_Host := None |};
     PkgControlplane.CP_State := Some (Some invalidEntryState) |}.

(** Components that always build, for the scenarios. *)
Definition plainNew (c : PkgControlplane.Controlplane) (σ : State)
    : option ((error + PkgControlplane.controlplane) * State) :=
  PkgControlplane.New (λ h _, h) unit unit unit
    (λ _, inr tt) (λ _, inr tt) (λ _, inr tt)
    (λ _, inr (exported hostH1 "img" noStatus ∅))
    (λ _, inr (exported hostH1 "img" noStatus ∅))
    (λ _, inr (exported hostH1 "img" noStatus ∅)) c σ.

(** The states the scenarios end in. *)
Definition coldStartDone : State := (Execute rank0 engine coldStart).2.
Definition fileDriftDone : State := (Execute rank0 engine fileDrift).2.
Definition migrationDone : State := (Execute rank0 engine migration).2.

(** Scenario 1 from the user's configuration on: [New], then
    [CheckCurrentState], then [Execute]. *)
Definition coldConfiguration : Containers :=
  {| PreviousState := None;
     DesiredState := Some {[ "a" := exported hostH1 "img" noStatus {[ "/c.yaml" := "x" ]} ]} |}.

Definition coldNew : (error + containers) * State :=
  New (Some coldConfiguration) emptyState.

Definition coldChecked : (error + unit) * containers * State :=
  CheckCurrentState rank0 freshEngine coldNew.2.

Definition coldDone : (error + unit) * State :=
  Execute rank0 engine coldChecked.2.

End Scenarios.

(** * Reasoning about the monad *)

Lemma bind_ok {A B} (m : M A) (k : A → M B) σ b σ' :
  bind m k σ = (inr b, σ') → ∃ a σ1, m σ = (inr a, σ1) ∧ k a σ1 = (inr b, σ').
Proof.
  unfold bind. destruct (m σ) as [[e|a] σ1]; [discriminate|]. eauto.
Qed.

Lemma wrap_ok {A} msg (m : M A) σ a σ' :
  wrap msg m σ = (inr a, σ') → m σ = (inr a, σ').
Proof.
  unfold wrap. destruct (m σ) as [[e|x] σ1]; [discriminate|]. done.
Qed.

Ltac inv_ok :=
  repeat match goal with
  | H : bind _ _ _ = (inr _, _) |- _ =>
      apply bind_ok in H; destruct H as (? & ? & ? & H)
  | H : wrap _ _ _ = (inr _, _) |- _ => apply wrap_ok in H
  | H : ret _ _ = (_, _) |- _ => unfold ret in H; simplify_eq
  | H : modify _ _ = (_, _) |- _ => unfold modify in H; simplify_eq
  | H : fail _ _ = (inr _, _) |- _ => discriminate H
  | H : (inr _, _) = (inr _, _) |- _ => simplify_eq
  | H : (inl _, _) = (inr _, _) |- _ => discriminate H
  | x : unit |- _ => destruct x
  end.

Lemma forEach_ind {A} (P : State → Prop) (body : A → M unit) l σ σ' :
  (∀ x σ1 σ2, x ∈ l → P σ1 → body x σ1 = (inr tt, σ2) → P σ2) →
  P σ → forEach l body σ = (inr tt, σ') → P σ'.
Proof.
  revert σ. induction l as [|x l IH]; intros σ Hb HP H; simpl in H.
  - inv_ok. done.
  - inv_ok. eapply IH; [| |done].
    + intros y ????. eapply Hb; eauto. by right.
    + eapply Hb; eauto. by left.
Qed.

Lemma forEach_id {A} (body : A → M unit) l σ :
  (∀ x, x ∈ l → body x σ = (inr tt, σ)) → forEach l body σ = (inr tt, σ).
Proof.
  induction l as [|x l IH]; intros Hb; simpl; [done|].
  unfold bind. rewrite Hb by (by left). apply IH. intros y ?. apply Hb. by right.
Qed.

Lemma mapAt_setMaps_eq m v σ : mapAt m (setMaps <[m := v]> σ) = v.
Proof. unfold mapAt. simpl. by rewrite lookup_total_insert_eq. Qed.

Lemma mapAt_setMaps_ne m m' v σ : m ≠ m' → mapAt m' (setMaps <[m := v]> σ) = mapAt m' σ.
Proof. intros. unfold mapAt. simpl. by rewrite lookup_total_insert_ne. Qed.

(** * Footprints

    What a step taken on behalf of the name [x] may touch: the entry of [x]
    in the current map, the cells in [own], and the log, extended by events
    of cells in [own]. *)

Section Frame.
Context (own : loc → Prop) (cur des : mref) (x : string).
Hypothesis Hne : cur ≠ des.

Lemma frame_refl σ : owns own cur des x σ → frame own cur x σ σ.
Proof.
  intros Ho. repeat split; try done.
  - intros p Hp. apply Ho. by left.
  - exists []. by rewrite app_nil_r.
Qed.

Lemma frame_trans σ1 σ2 σ3 :
  frame own cur x σ1 σ2 → frame own cur x σ2 σ3 → frame own cur x σ1 σ3.
Proof.
  intros (A1 & A2 & A3 & A4 & (e1 & A5 & A6)) (B1 & B2 & B3 & B4 & (e2 & B5 & B6)).
  repeat split.
  - intros m Hm. by rewrite B1, A1.
  - intros z Hz. by rewrite B2, A2.
  - done.
  - intros p Hp. by rewrite B4, A4.
  - exists (e1 ++ e2). split.
    + by rewrite B5, A5, app_assoc.
    + by apply Forall_app.
Qed.

Lemma frame_owns σ σ' : owns own cur des x σ → frame own cur x σ σ' → owns own cur des x σ'.
Proof.
  intros Ho (A1 & A2 & A3 & A4 & A5) p [Hp|Hp].
  - by apply A3.
  - apply Ho. right. by rewrite <- (A1 des).
Qed.

(** State updates that stay inside the footprint. *)
Lemma frame_heap σ p h :
  owns own cur des x σ → own p → frame own cur x σ (setHeap <[p := h]> σ).
Proof.
  intros Ho Hp. repeat split; simpl; try done.
  - intros q Hq. apply Ho. by left.
  - intros q Hq. apply lookup_insert_ne. by intros ->.
  - exists []. by rewrite app_nil_r.
Qed.

Lemma frame_world σ f : owns own cur des x σ → frame own cur x σ (setWorld f σ).
Proof.
  intros Ho. repeat split; simpl; try done.
  - intros q Hq. apply Ho. by left.
  - exists []. by rewrite app_nil_r.
Qed.

Lemma frame_delete σ :
  frame own cur x σ (setMaps <[cur := delete x (mapAt cur σ)]> σ).
Proof.
  repeat split; simpl; try done.
  - intros m Hm. by rewrite mapAt_setMaps_ne.
  - intros z Hz. rewrite mapAt_setMaps_eq. by rewrite lookup_delete_ne.
  - intros p. rewrite mapAt_setMaps_eq, lookup_delete_eq. done.
  - exists []. by rewrite app_nil_r.
Qed.

Lemma frame_publish σ d :
  own d → frame own cur x σ (setMaps <[cur := <[x := d]> (mapAt cur σ)]> σ).
Proof.
  intros Hd. repeat split; simpl; try done.
  - intros m Hm. by rewrite mapAt_setMaps_ne.
  - intros z Hz. rewrite mapAt_setMaps_eq. by rewrite lookup_insert_ne.
  - intros p. rewrite mapAt_setMaps_eq, lookup_insert_eq. congruence.
  - exists []. by rewrite app_nil_r.
Qed.

End Frame.

(** * The footprint of every operation *)

Section FrameOps.
Context (rank : string → nat) (own : loc → Prop) (cur des : mref) (x : string).
Hypothesis Hne : cur ≠ des.

Abbreviation framedx := (framed own cur des x).

Lemma framed_ret {A} (a : A) : framedx (ret a).
Proof. intros σ b σ' Ho H. inv_ok. by apply (frame_refl _ _ des). Qed.

Lemma framed_fail {A} e : framedx (@fail A e).
Proof. intros σ b σ' Ho H. inv_ok. Qed.

Lemma framed_bind {A B} (m : M A) (k : A → M B) :
  framedx m → (∀ a, framedx (k a)) → framedx (bind m k).
Proof.
  intros Hm Hk σ b σ' Ho H. inv_ok.
  eapply frame_trans; [by eapply Hm|].
  eapply Hk; [|done]. eapply frame_owns; eauto.
Qed.

Lemma framed_wrap {A} msg (m : M A) : framedx m → framedx (wrap msg m).
Proof. intros Hm σ b σ' Ho H. inv_ok. eauto. Qed.

Lemma framed_forEach {A} (body : A → M unit) l :
  (∀ a, framedx (body a)) → framedx (forEach l body).
Proof.
  intros Hb. induction l as [|a l IH]; simpl.
  - apply framed_ret.
  - apply framed_bind; auto.
Qed.

Lemma emit_ok ev σ σ' :
  emit ev σ = (inr tt, σ') →
  σ' = {| heap := heap σ; maps := maps σ; world := world σ; trace := trace σ ++ [ev] |}.
Proof. unfold emit. destruct (healthy _ _); congruence. Qed.

Lemma framed_emit ev : own (eventCell ev) → framedx (emit ev).
Proof.
  intros Hev σ [] σ' Ho H. apply emit_ok in H as ->.
  repeat split; simpl; try done.
  - intros p Hp. apply Ho. by left.
  - exists [ev]. split; [done|]. by constructor.
Qed.

Lemma framed_setHeap (p : loc) (f : State → hostConfiguredContainer) :
  own p → framedx (modify (λ σ, setHeap <[p := f σ]> σ)).
Proof. intros Hp σ [] σ' Ho H. inv_ok. by apply (frame_heap _ _ des). Qed.

Lemma framed_setWorld (f : State → World → World) :
  framedx (modify (λ σ, setWorld (f σ) σ)).
Proof. intros σ [] σ' Ho H. inv_ok. by apply (frame_world _ _ des). Qed.

Lemma framed_hcc_Start c : own c → framedx (hcc_Start c).
Proof.
  intros Hc. unfold hcc_Start. apply framed_bind; [by apply framed_emit|].
  intros _ σ [] σ' Ho H.
  destruct (daemon (world σ) !! _); [|discriminate]. simplify_eq.
  eapply frame_trans; [by apply (frame_world _ _ des)|].
  apply (frame_heap _ _ des); [|done]. eapply frame_owns; eauto.
  by apply (frame_world _ _ des).
Qed.

Lemma framed_writeFile c p : own c → framedx (writeFile c p).
Proof.
  intros Hc σ [] σ' Ho H. unfold writeFile in H. revert H.
  apply framed_bind; [by apply framed_emit| |done].
  intros _. apply (framed_setWorld (λ _, _)).
Qed.

Lemma framed_hcc_Configure c paths : own c → framedx (hcc_Configure c paths).
Proof. intros Hc. apply framed_forEach. intros p. by apply framed_writeFile. Qed.

Lemma framed_CreateAndStart :
  framedx (CreateAndStart rank des x).
Proof.
  intros σ [] σ' Ho H. unfold CreateAndStart in H.
  destruct (mapAt des σ !! x) as [c|] eqn:Ec; [|discriminate].
  assert (own c) as Hc by (apply Ho; by right).
  revert H. apply framed_wrap; [|done].
  apply framed_bind; [by apply framed_hcc_Configure|]. intros _.
  apply framed_bind; [by apply framed_emit|]. intros _.
  apply framed_bind; [by apply framed_emit|]. intros _.
  intros σ1 [] σ2 Ho1 H. inv_ok.
  eapply frame_trans; [by apply (frame_world _ _ des)|].
  apply (frame_heap _ _ des); [|done]. eapply frame_owns; eauto.
  by apply (frame_world _ _ des).
Qed.

Lemma framed_deleteFile c p : own c → framedx (deleteFile c p).
Proof.
  intros Hc. unfold deleteFile. apply framed_bind; [by apply framed_emit|].
  intros _. apply (framed_setWorld (λ σ, _)).
Qed.

Lemma framed_RemoveContainer : framedx (RemoveContainer rank cur x).
Proof.
  intros σ [] σ' Ho H. unfold RemoveContainer in H.
  destruct (mapAt cur σ !! x) as [c|] eqn:Ec.
  2:{ simplify_eq. by apply (frame_refl _ _ des). }
  assert (own c) as Hc by (apply Ho; by left).
  revert H. apply framed_wrap; [|done].
  apply framed_bind.
  { destruct (exists_ _); [|apply framed_ret].
    apply framed_bind.
    - destruct (running _); [|apply framed_ret].
      apply framed_bind; [by apply framed_emit|]. intros _.
      apply (framed_setWorld (λ _, _)).
    - intros _. apply framed_bind; [by apply framed_emit|]. intros _.
      apply (framed_setWorld (λ _, _)). }
  intros _. apply framed_bind.
  { apply framed_forEach. intros p. by apply framed_deleteFile. }
  intros _ σ1 [] σ2 Ho1 H. inv_ok. apply frame_delete.
Qed.

End FrameOps.

Section FrameEngine.
Context (rank : string → nat) (own : loc → Prop) (c : containers) (cur : mref) (x : string).
Hypothesis Hcur : currentState c = Some cur.
Hypothesis Hne : cur ≠ desiredState c.

Abbreviation des := (desiredState c).
Abbreviation framedx := (framed own cur (desiredState c) x).

Ltac fbind := apply framed_bind; [done| |intros ?].
Ltac use_framed Ho H :=
  match type of H with
  | ?m ?σ = (inr ?a, ?σ') =>
      cut (framed own cur (desiredState c) x m); [intros F; exact (F σ a σ' Ho H)|]
  end.

Lemma currentAt_eq n σ : currentAt c n σ = mapAt cur σ !! n.
Proof. unfold currentAt. by rewrite Hcur. Qed.

Lemma owns_cur σ p : owns own cur des x σ → currentAt c x σ = Some p → own p.
Proof. intros Ho Hp. apply Ho. left. by rewrite <- currentAt_eq. Qed.

Lemma owns_des σ p : owns own cur des x σ → desiredAt c x σ = Some p → own p.
Proof. intros Ho Hp. apply Ho. by right. Qed.

Lemma framed_publish d : own d → framedx (publish c x d).
Proof.
  intros Hd σ [] σ' Ho H. unfold publish in H. rewrite Hcur in H. inv_ok.
  by apply frame_publish.
Qed.

Lemma framed_ensureConfigured : framedx (ensureConfigured rank c x).
Proof.
  intros σ [] σ' Ho H. unfold ensureConfigured in H.
  destruct (desiredAt c x σ) as [d|] eqn:Ed.
  2:{ simplify_eq. by apply (frame_refl _ _ des). }
  assert (own d) as Hd by eauto using owns_des.
  use_framed Ho H. fbind; [|fbind].
  - apply framed_wrap. by apply framed_hcc_Configure.
  - destruct (currentAt c x σ); [apply framed_ret | by apply framed_publish].
  - apply (framed_setHeap _ _ _ _ _ (λ σ1, _)).
    destruct (currentAt c x σ) eqn:Er; simpl; eauto using owns_cur.
Qed.

Lemma framed_ensureRunning r : own r → framedx (ensureRunning (Some r)).
Proof.
  intros Hr σ [] σ' Ho H. simpl in H.
  destruct (IsRunning _).
  - simplify_eq. by apply (frame_refl _ _ des).
  - use_framed Ho H. by apply framed_hcc_Start.
Qed.

Lemma framed_ensureExists : framedx (ensureExists rank c x).
Proof.
  intros σ [] σ' Ho H. unfold ensureExists in H.
  destruct (match currentAt c x σ with Some r => _ | None => _ end).
  { simplify_eq. by apply (frame_refl _ _ des). }
  use_framed Ho H. fbind.
  - apply framed_wrap. by apply framed_CreateAndStart.
  - intros σ1 [] σ2 Ho1 H1.
    destruct (desiredAt c x σ1) as [d|] eqn:Ed; [|discriminate].
    assert (own d) as Hd by eauto using owns_des.
    use_framed Ho1 H1. fbind.
    + destruct (currentAt c x σ); [apply framed_ret | by apply framed_publish].
    + apply (framed_setHeap _ _ _ _ _ (λ σ1, _)).
      destruct (currentAt c x σ) eqn:Er; simpl; eauto using owns_cur.
Qed.

Lemma framed_isUpdatable : framedx (isUpdatable c x).
Proof.
  intros σ [] σ' Ho H. unfold isUpdatable in H.
  destruct (currentAt c x σ); [|discriminate].
  destruct (desiredAt c x σ); [|discriminate].
  simplify_eq. by apply (frame_refl _ _ des).
Qed.

Lemma framed_diffWith {A} `{EqDecision A} (f : hostConfiguredContainer → A) :
  framedx (diffWith f c x).
Proof.
  unfold diffWith. fbind.
  - apply framed_wrap, framed_isUpdatable.
  - intros σ d σ' Ho H.
    destruct (currentAt c x σ); [|discriminate].
    destruct (desiredAt c x σ); [|discriminate].
    simplify_eq. by apply (frame_refl _ _ des).
Qed.

Lemma framed_removeCurrent : framedx (removeCurrent rank c x).
Proof. unfold removeCurrent. rewrite Hcur. by apply framed_RemoveContainer. Qed.

Lemma framed_recreate : framedx (recreate rank c x).
Proof.
  unfold recreate. fbind.
  - apply framed_wrap, framed_removeCurrent.
  - by apply framed_CreateAndStart.
Qed.

Lemma framed_installDesired : framedx (installDesired c x).
Proof.
  intros σ [] σ' Ho H. unfold installDesired in H.
  destruct (desiredAt c x σ) as [d|] eqn:Ed; [|discriminate].
  use_framed Ho H. apply framed_publish; eauto using owns_des.
Qed.

Lemma framed_ensureSame what diff :
  framedx diff → framedx (ensureSame rank what diff c x).
Proof.
  intros Hd. unfold ensureSame. fbind.
  - by apply framed_wrap.
  - destruct (decide _); [apply framed_ret|].
    fbind; [apply framed_wrap, framed_recreate|].
    apply framed_installDesired.
Qed.

Lemma framed_ensureHost : framedx (ensureHost rank c x).
Proof. apply framed_ensureSame, framed_diffWith. Qed.

Lemma framed_ensureContainer : framedx (ensureContainer rank c x).
Proof. apply framed_ensureSame, framed_diffWith. Qed.

Lemma framed_pruneOrRevive : framedx (pruneOrRevive cur x).
Proof.
  intros σ [] σ' Ho H. unfold pruneOrRevive in H.
  destruct (mapAt cur σ !! x) as [r|] eqn:Er.
  2:{ simplify_eq. by apply (frame_refl _ _ des). }
  destruct (negb _).
  - simplify_eq. apply frame_delete.
  - use_framed Ho H. apply framed_wrap. apply framed_ensureRunning.
    apply Ho. by left.
Qed.

Lemma framed_configureAndCreate : framedx (configureAndCreate rank c x).
Proof.
  unfold configureAndCreate. fbind.
  - apply framed_wrap, framed_ensureConfigured.
  - apply framed_wrap, framed_ensureExists.
Qed.

Lemma framed_updateOrRemove : framedx (updateOrRemove rank c cur x).
Proof.
  intros σ [] σ' Ho H. unfold updateOrRemove in H.
  destruct (mapAt cur σ !! x) as [r|] eqn:Er.
  2:{ simplify_eq. by apply (frame_refl _ _ des). }
  use_framed Ho H.
  fbind; [apply framed_wrap, framed_ensureHost|].
  fbind; [apply framed_wrap, framed_ensureConfigured|].
  fbind; [apply framed_wrap, framed_ensureContainer|].
  intros σ1 [] σ2 Ho1 H1.
  destruct (desiredAt c x σ1).
  - simplify_eq. by apply (frame_refl _ _ des).
  - use_framed Ho1 H1. apply framed_wrap. by apply framed_RemoveContainer.
Qed.

End FrameEngine.

(** * What the operations compute *)

Lemma withConfigFiles_id h : withConfigFiles (configFiles h) h = h.
Proof. by destruct h. Qed.

Lemma withStatus_id h : withStatus (Status (container h)) h = h.
Proof. by destruct h as [? [] ?]. Qed.

Lemma setHeap_id σ p h : heap σ !! p = Some h → setHeap <[p := h]> σ = σ.
Proof. intros H. destruct σ. unfold setHeap. simpl in *. by rewrite insert_id. Qed.

Lemma cellAt_Some σ p h : heap σ !! p = Some h → cellAt p σ = h.
Proof. intros H. unfold cellAt. by rewrite (lookup_total_correct _ _ _ H). Qed.

Ltac emit_inv :=
  repeat match goal with
  | H : emit _ _ = (inr _, _) |- _ => apply emit_ok in H; subst
  end.

Section Ops.
Context (rank : string → nat).

Lemma hcc_Start_ok c σ σ' :
  hcc_Start c σ = (inr tt, σ') →
  heap σ' = <[c := started (cellAt c σ) (ID (Status (container (cellAt c σ))))]> (heap σ) ∧
  maps σ' = maps σ ∧ trace σ' = trace σ ++ [Start c].
Proof.
  unfold hcc_Start. intros H. inv_ok. emit_inv.
  unfold cellAt in *. simpl in *.
  destruct (daemon _ !! _); [|discriminate]. by simplify_eq.
Qed.

Lemma hcc_Configure_ok c paths σ σ' :
  hcc_Configure c paths σ = (inr tt, σ') →
  heap σ' = heap σ ∧ maps σ' = maps σ ∧
  trace σ' = trace σ ++ writes c (cellAt c σ) paths.
Proof.
  unfold hcc_Configure. revert σ. induction paths as [|p paths IH]; intros σ H; simpl in H.
  - inv_ok. by rewrite app_nil_r.
  - inv_ok. unfold writeFile in *. inv_ok. emit_inv.
    apply IH in H as (-> & -> & ->). simpl. unfold cellAt at 1. simpl.
    split; [done|]. split; [done|]. by rewrite <- app_assoc.
Qed.

Lemma CreateAndStart_ok s n σ σ' :
  CreateAndStart rank s n σ = (inr tt, σ') →
  ∃ c id, mapAt s σ !! n = Some c ∧
    heap σ' = <[c := started (cellAt c σ) id]> (heap σ) ∧
    maps σ' = maps σ ∧
    trace σ' = trace σ ++ writes c (cellAt c σ) (rangeKeys rank (configFiles (cellAt c σ)))
                 ++ [Create c; Start c].
Proof.
  unfold CreateAndStart. intros H.
  destruct (mapAt s σ !! n) as [c|]; [|discriminate]. inv_ok.
  match goal with H : hcc_Configure _ _ _ = _ |- _ =>
    apply hcc_Configure_ok in H as (Hh & Hm & Ht) end.
  emit_inv.
  eexists c, _. unfold cellAt. simpl. rewrite Hh, Hm, Ht.
  split; [done|]. split; [done|]. split; [done|].
  by rewrite <- !app_assoc.
Qed.

Lemma forEach_deleteFile_ok c paths σ σ' :
  forEach paths (deleteFile c) σ = (inr tt, σ') →
  heap σ' = heap σ ∧ maps σ' = maps σ ∧ trace σ' = trace σ ++ map (DeleteFile c) paths.
Proof.
  revert σ. induction paths as [|p paths IH]; intros σ H; simpl in H.
  - inv_ok. by rewrite app_nil_r.
  - inv_ok. unfold deleteFile in *. inv_ok. emit_inv.
    apply IH in H as (-> & -> & ->). simpl.
    split; [done|]. split; [done|]. by rewrite <- app_assoc.
Qed.

Lemma RemoveContainer_ok s n c σ σ' :
  mapAt s σ !! n = Some c →
  RemoveContainer rank s n σ = (inr tt, σ') →
  heap σ' = heap σ ∧ maps σ' = <[s := delete n (mapAt s σ)]> (maps σ) ∧
  trace σ' = trace σ ++ removal rank c (cellAt c σ).
Proof.
  unfold RemoveContainer, removal. intros -> H. inv_ok.
  match goal with H : forEach _ _ _ = _ |- _ =>
    apply forEach_deleteFile_ok in H as (Hh1 & Hm1 & Ht1) end.
  unfold mapAt. simpl. rewrite Hh1, Hm1, Ht1.
  destruct (exists_ _); [destruct (running _)|]; inv_ok; emit_inv; simpl;
    rewrite <- ?app_assoc; done.
Qed.

End Ops.

Section EngineOps.
Context (rank : string → nat) (c : containers) (cur : mref).
Hypothesis Hcur : currentState c = Some cur.
Hypothesis Hne : cur ≠ desiredState c.

Abbreviation des := (desiredState c).

Lemma curAt n σ : currentAt c n σ = mapAt cur σ !! n.
Proof. unfold currentAt. by rewrite Hcur. Qed.

Lemma ensureConfigured_ok x σ σ' d :
  mapAt des σ !! x = Some d →
  ensureConfigured rank c x σ = (inr tt, σ') →
  heap σ' = <[default d (mapAt cur σ !! x) :=
               withConfigFiles (configFiles (cellAt d σ))
                 (cellAt (default d (mapAt cur σ !! x)) σ)]> (heap σ) ∧
  maps σ' = match mapAt cur σ !! x with
            | Some _ => maps σ
            | None => <[cur := <[x := d]> (mapAt cur σ)]> (maps σ)
            end ∧
  trace σ' = trace σ ++
    writes d (cellAt d σ)
      (filesToUpdate rank (cellAt d σ) ((λ r, cellAt r σ) <$> mapAt cur σ !! x)).
Proof.
  intros Hd H. unfold ensureConfigured, desiredAt in H. rewrite Hd, curAt in H.
  inv_ok.
  match goal with H : hcc_Configure _ _ _ = _ |- _ =>
    apply hcc_Configure_ok in H as (Hh & Hm & Ht) end.
  destruct (mapAt cur σ !! x) as [r|] eqn:Er; simpl in *.
  - inv_ok. unfold cellAt. simpl. rewrite Hh, Hm, Ht. done.
  - unfold publish in *. rewrite Hcur in *. inv_ok.
    unfold cellAt, mapAt. simpl. rewrite Hh, Hm, Ht. done.
Qed.

Lemma ensureExists_exists x σ r :
  mapAt cur σ !! x = Some r → Exists (container (cellAt r σ)) = true →
  ensureExists rank c x σ = (inr tt, σ).
Proof. intros Hr He. unfold ensureExists. rewrite curAt, Hr, He. done. Qed.

Lemma ensureExists_create x σ σ' d :
  mapAt cur σ !! x = Some d → mapAt des σ !! x = Some d →
  Exists (container (cellAt d σ)) = false →
  ensureExists rank c x σ = (inr tt, σ') →
  ∃ id, heap σ' = <[d := started (cellAt d σ) id]> (heap σ) ∧
        maps σ' = maps σ ∧
        trace σ' = trace σ ++
          writes d (cellAt d σ) (rangeKeys rank (configFiles (cellAt d σ))) ++
          [Create d; Start d].
Proof.
  intros Hr Hd He H. unfold ensureExists in H. rewrite curAt, Hr, He in H.
  inv_ok.
  match goal with H : CreateAndStart _ _ _ _ = _ |- _ =>
    apply CreateAndStart_ok in H as (d' & id & Hd' & Hh & Hm & Ht) end.
  assert (d' = d) as -> by congruence.
  match goal with H : context [desiredAt] |- _ => unfold desiredAt, mapAt in H;
    rewrite Hm in H; fold (mapAt des σ) in H; rewrite Hd in H end.
  inv_ok. exists id. unfold cellAt. simpl. rewrite Hh, Hm, Ht.
  rewrite lookup_total_insert_eq. split; [|done].
  rewrite insert_insert_eq. done.
Qed.

Lemma cmpDiff_same {A} `{EqDecision A} (a : A) : cmpDiff a a = ""%string.
Proof. unfold cmpDiff. by rewrite decide_True. Qed.

Lemma cmpDiff_diff {A} `{EqDecision A} (a b : A) : a ≠ b → cmpDiff a b ≠ ""%string.
Proof. intros. unfold cmpDiff. by rewrite decide_False. Qed.

Lemma diffWith_ok {A} `{EqDecision A} (f : hostConfiguredContainer → A) x σ r d :
  mapAt cur σ !! x = Some r → mapAt des σ !! x = Some d →
  diffWith f c x σ = (inr (cmpDiff (f (cellAt r σ)) (f (cellAt d σ))), σ).
Proof.
  intros Hr Hd. unfold diffWith, isUpdatable, bind, wrap, desiredAt.
  rewrite curAt, Hr, Hd. simpl. rewrite curAt, Hr, Hd. done.
Qed.

Lemma ensureSame_same {A} `{EqDecision A} (f : hostConfiguredContainer → A) what x σ r d :
  mapAt cur σ !! x = Some r → mapAt des σ !! x = Some d →
  f (cellAt r σ) = f (cellAt d σ) →
  ensureSame rank what (diffWith f c x) c x σ = (inr tt, σ).
Proof.
  intros Hr Hd Hf. unfold ensureSame, bind, wrap.
  rewrite (diffWith_ok f x σ r d) by done. rewrite Hf, cmpDiff_same.
  by rewrite decide_True.
Qed.

Lemma ensureSame_diff {A} `{EqDecision A} (f : hostConfiguredContainer → A) what x σ σ' r d :
  mapAt cur σ !! x = Some r → mapAt des σ !! x = Some d →
  f (cellAt r σ) ≠ f (cellAt d σ) →
  ensureSame rank what (diffWith f c x) c x σ = (inr tt, σ') →
  ∃ id, heap σ' = <[d := started (cellAt d σ) id]> (heap σ) ∧
        maps σ' = <[cur := <[x := d]> (mapAt cur σ)]> (maps σ) ∧
        trace σ' = trace σ ++ removal rank r (cellAt r σ) ++
          writes d (cellAt d σ) (rangeKeys rank (configFiles (cellAt d σ))) ++
          [Create d; Start d].
Proof.
  intros Hr Hd Hf H. unfold ensureSame in H. inv_ok.
  match goal with H : diffWith _ _ _ _ = _ |- _ =>
    rewrite (diffWith_ok f x σ r d) in H by done; injection H as <- <- end.
  rewrite decide_False in H by (by apply cmpDiff_diff). inv_ok.
  match goal with H : recreate _ _ _ _ = _ |- _ =>
    unfold recreate, removeCurrent in H; rewrite Hcur in H; inv_ok end.
  match goal with H : RemoveContainer _ _ _ _ = _ |- _ =>
    apply (RemoveContainer_ok _ _ _ r) in H as (Hh1 & Hm1 & Ht1); [|done] end.
  match goal with H : CreateAndStart _ _ _ _ = _ |- _ =>
    apply CreateAndStart_ok in H as (d' & id & Hd' & Hh2 & Hm2 & Ht2) end.
  assert (d' = d) as ->.
  { unfold mapAt in Hd'. rewrite Hm1, lookup_total_insert_ne in Hd' by done.
    fold (mapAt des σ) in Hd'. congruence. }
  match goal with H : installDesired _ _ _ = _ |- _ =>
    unfold installDesired, desiredAt, mapAt in H; rewrite Hm2, Hm1 in H;
    rewrite lookup_total_insert_ne in H by done;
    fold (mapAt des σ) in H; rewrite Hd in H;
    unfold publish in H; rewrite Hcur in H; inv_ok end.
  exists id. unfold cellAt, mapAt in *. simpl.
  rewrite Hh2, Hm2, Ht2, Hh1, Hm1, Ht1.
  rewrite lookup_total_insert_eq, insert_insert_eq, insert_delete_eq.
  rewrite <- !app_assoc. done.
Qed.

End EngineOps.

(** * Names and the cells they own *)

Section Loops.
Context (own : string → loc → Prop) (cur des : mref).
Hypothesis Hne : cur ≠ des.
Hypothesis Hdisj : ownDisjoint own.

Lemma away_refl n σ : away own cur des n σ σ.
Proof. split; [done|]. exists []. by rewrite app_nil_r. Qed.

Lemma away_trans n σ1 σ2 σ3 :
  away own cur des n σ1 σ2 → away own cur des n σ2 σ3 → away own cur des n σ1 σ3.
Proof.
  intros (A1 & e1 & A2 & A3) (B1 & e2 & B2 & B3). split; [congruence|].
  exists (e1 ++ e2). split; [by rewrite B2, A2, app_assoc | by apply Forall_app].
Qed.

Lemma frame_Owned x σ σ' :
  Owned own cur des σ → frame (own x) cur x σ σ' → Owned own cur des σ'.
Proof.
  intros Ho F n. destruct (decide (n = x)) as [->|Hn].
  - eapply frame_owns; eauto.
  - destruct F as (A1 & A2 & _). intros p Hp. apply (Ho n).
    by rewrite <- A2, <- (A1 des).
Qed.

Lemma frame_away x n σ σ' :
  n ≠ x → Owned own cur des σ → frame (own x) cur x σ σ' → away own cur des n σ σ'.
Proof.
  intros Hn Ho (A1 & A2 & A3 & A4 & evs & A5 & A6). split.
  - unfold viewOf. rewrite A2 by done. rewrite (A1 des) by done.
    assert (∀ p, own n p → heap σ' !! p = heap σ !! p) as Hh.
    { intros p Hp. apply A4. intros Hx. by apply Hn, (Hdisj _ _ p). }
    f_equal.
    + destruct (mapAt cur σ !! n) as [p|] eqn:E; simpl; [|done].
      apply Hh, (Ho n). by left.
    + destruct (mapAt des σ !! n) as [p|] eqn:E; simpl; [|done].
      apply Hh, (Ho n). by right.
  - exists evs. split; [done|]. eapply Forall_impl; [done|].
    intros e He Hx. simpl in *. by apply Hn, (Hdisj _ _ (eventCell e)).
Qed.

Context (body : string → M unit).
Hypothesis Hbody : ∀ y, framed (own y) cur des y (body y).

Lemma loop_others n l σ σ' :
  n ∉ l → Owned own cur des σ → forEach l body σ = (inr tt, σ') →
  away own cur des n σ σ' ∧ Owned own cur des σ'.
Proof.
  intros Hn Ho H.
  apply (forEach_ind (λ σ1, away own cur des n σ σ1 ∧ Owned own cur des σ1) body l σ σ');
    [|split; [apply away_refl|done]|done].
  intros y σ1 σ2 Hy [Ha Ho1] Hb.
  pose proof (Hbody y σ1 tt σ2 (Ho1 y) Hb) as F. split.
  - eapply away_trans; [done|]. eapply frame_away; [|done|done]. by intros ->.
  - by eapply frame_Owned.
Qed.

Lemma forEach_app {A} (b : A → M unit) l1 l2 σ σ' :
  forEach (l1 ++ l2) b σ = (inr tt, σ') →
  ∃ σ1, forEach l1 b σ = (inr tt, σ1) ∧ forEach l2 b σ1 = (inr tt, σ').
Proof.
  revert σ. induction l1 as [|a l1 IH]; intros σ H; simpl in *.
  - eauto.
  - inv_ok. apply IH in H as (σ1 & H1 & H2). exists σ1. split; [|done].
    unfold bind. by match goal with H : b a σ = _ |- _ => rewrite H end.
Qed.

Lemma loop_at n l σ σ' :
  NoDup l → n ∈ l → Owned own cur des σ → forEach l body σ = (inr tt, σ') →
  ∃ σa σb, away own cur des n σ σa ∧ Owned own cur des σa ∧
           body n σa = (inr tt, σb) ∧
           away own cur des n σb σ' ∧ Owned own cur des σ'.
Proof.
  intros Hnd Hin Ho H.
  apply list_elem_of_split in Hin as (l1 & l2 & ->).
  apply NoDup_app in Hnd as (_ & Hn1 & Hnd2).
  apply NoDup_cons in Hnd2 as (Hn2 & _).
  apply forEach_app in H as (σa & H1 & H2). simpl in H2. inv_ok.
  match goal with H : body n σa = (inr tt, ?s) |- _ => rename s into σb; rename H into Hb end.
  assert (n ∉ l1) as Hn1' by (intros ?; eapply Hn1; [done|by left]).
  destruct (loop_others n l1 σ σa Hn1' Ho H1) as [Ha Hoa].
  pose proof (Hbody n σa tt σb (Hoa n) Hb) as F.
  assert (Owned own cur des σb) as Hob by (by eapply frame_Owned).
  destruct (loop_others n l2 σb σ' Hn2 Hob H2) as [Hb' Ho'].
  by exists σa, σb.
Qed.

End Loops.

(** * Settled states *)

Section SettledId.
Context (rank : string → nat) (c : containers) (cur : mref).
Hypothesis Hcur : currentState c = Some cur.

Abbreviation des := (desiredState c).

Lemma filesToUpdate_same hd hc :
  configFiles hc = configFiles hd → filesToUpdate rank hd (Some hc) = [].
Proof.
  intros Hf. unfold filesToUpdate.
  induction (rangeKeys rank (configFiles hd)) as [|p l IH]; [done|].
  rewrite filter_cons, IH. unfold needsUpdate. rewrite Hf.
  destruct (configFiles hd !! p); simpl; [|done].
  by rewrite bool_decide_false by (by intros ?).
Qed.

Lemma settled_inv n σ r :
  SettledV (viewOf cur des n σ) → mapAt cur σ !! n = Some r →
  ∃ d hc hd, mapAt des σ !! n = Some d ∧ heap σ !! r = Some hc ∧ heap σ !! d = Some hd ∧
    IsRunning (container hc) = true ∧ host hc = host hd ∧
    Config (container hc) = Config (container hd) ∧ configFiles hc = configFiles hd.
Proof.
  unfold SettledV, viewOf. simpl. intros H Hr. rewrite Hr in H. simpl in H.
  destruct (mapAt des σ !! n) as [d|] eqn:Ed; [|done]. simpl in H.
  destruct H as (hc & hd & ? & ? & ?). by exists d, hc, hd.
Qed.

Lemma settled_inv_des n σ d :
  SettledV (viewOf cur des n σ) → mapAt des σ !! n = Some d →
  ∃ r, mapAt cur σ !! n = Some r.
Proof.
  unfold SettledV, viewOf. simpl. intros H Hd. rewrite Hd in H.
  destruct (mapAt cur σ !! n); [eauto|done].
Qed.

Lemma IsRunning_Exists h : IsRunning h = true → Exists h = true.
Proof. unfold IsRunning, Exists. by intros [??]%andb_prop. Qed.

Lemma ensureConfigured_settled n σ r d hc hd :
  mapAt cur σ !! n = Some r → mapAt des σ !! n = Some d →
  heap σ !! r = Some hc → heap σ !! d = Some hd →
  configFiles hc = configFiles hd →
  ensureConfigured rank c n σ = (inr tt, σ).
Proof.
  intros Hr Hd Hhc Hhd Hf. unfold ensureConfigured, desiredAt.
  rewrite Hd, (curAt c cur Hcur), Hr. simpl.
  rewrite (cellAt_Some _ _ _ Hhc), (cellAt_Some _ _ _ Hhd).
  change (filter _ _) with (filesToUpdate rank hd (Some hc)).
  rewrite filesToUpdate_same by done. unfold bind, wrap, modify. simpl.
  rewrite (cellAt_Some _ _ _ Hhc), (cellAt_Some _ _ _ Hhd).
  rewrite <- Hf, withConfigFiles_id. by rewrite setHeap_id.
Qed.

Lemma pruneOrRevive_settled n σ :
  SettledV (viewOf cur des n σ) → pruneOrRevive cur n σ = (inr tt, σ).
Proof.
  intros Hs. unfold pruneOrRevive.
  destruct (mapAt cur σ !! n) as [r|] eqn:Er; [|done].
  destruct (settled_inv n σ r Hs Er) as (d & hc & hd & Hd & Hhc & Hhd & Hrun & _).
  rewrite (cellAt_Some _ _ _ Hhc). rewrite (IsRunning_Exists _ Hrun). simpl.
  unfold wrap. rewrite (cellAt_Some _ _ _ Hhc), Hrun. done.
Qed.

Lemma configureAndCreate_settled n σ :
  SettledV (viewOf cur des n σ) → is_Some (mapAt des σ !! n) →
  configureAndCreate rank c n σ = (inr tt, σ).
Proof.
  intros Hs [d Hd].
  destruct (settled_inv_des n σ d Hs Hd) as [r Hr].
  destruct (settled_inv n σ r Hs Hr) as (d' & hc & hd & Hd' & Hhc & Hhd & Hrun & _ & _ & Hf).
  assert (d' = d) as -> by congruence.
  unfold configureAndCreate, bind, wrap.
  rewrite (ensureConfigured_settled n σ r d hc hd) by done.
  rewrite (ensureExists_exists rank c cur Hcur n σ r); [done|done|].
  rewrite (cellAt_Some _ _ _ Hhc). by apply IsRunning_Exists.
Qed.

Lemma updateOrRemove_settled n σ :
  SettledV (viewOf cur des n σ) → updateOrRemove rank c cur n σ = (inr tt, σ).
Proof.
  intros Hs. unfold updateOrRemove.
  destruct (mapAt cur σ !! n) as [r|] eqn:Er; [|done].
  destruct (settled_inv n σ r Hs Er) as (d & hc & hd & Hd & Hhc & Hhd & Hrun & Hh & Hc & Hf).
  unfold bind, wrap, ensureHost, diffHost, ensureContainer, diffContainer.
  rewrite (ensureSame_same rank c cur Hcur host _ n σ r d); try done.
  2:{ by rewrite (cellAt_Some _ _ _ Hhc), (cellAt_Some _ _ _ Hhd). }
  rewrite (ensureConfigured_settled n σ r d hc hd) by done.
  rewrite (ensureSame_same rank c cur Hcur (λ h, Config (container h)) _ n σ r d); try done.
  2:{ by rewrite (cellAt_Some _ _ _ Hhc), (cellAt_Some _ _ _ Hhd). }
  unfold desiredAt. by rewrite Hd.
Qed.

End SettledId.

Lemma elem_of_rangeKeys {V} rank (m : gmap string V) n :
  n ∈ rangeKeys rank m ↔ is_Some (m !! n).
Proof.
  unfold rangeKeys. rewrite merge_sort_Permutation, elem_of_elements, elem_of_dom. done.
Qed.

Lemma rangeKeys_NoDup {V} rank (m : gmap string V) : NoDup (rangeKeys rank m).
Proof. unfold rangeKeys. rewrite merge_sort_Permutation. apply NoDup_elements. Qed.

(** In a settled state [Execute] finds nothing to do: it succeeds and leaves
    the store, the hosts and the log as they are. *)
Lemma Settled_Execute rank c σ : Settled c σ → Execute rank c σ = (inr tt, σ).
Proof.
  intros (cur & Hcur & Hs). unfold Execute. rewrite Hcur. unfold bind.
  rewrite forEach_id.
  2:{ intros n _. by apply (pruneOrRevive_settled c). }
  rewrite forEach_id.
  2:{ intros n Hn%elem_of_rangeKeys. by apply (configureAndCreate_settled rank c cur). }
  rewrite forEach_id; [done|].
  intros n _. by apply updateOrRemove_settled.
Qed.

(** * What each pass establishes for a name *)

Lemma mapAt_maps_eq m σ σ' : maps σ' = maps σ → mapAt m σ' = mapAt m σ.
Proof. unfold mapAt. by intros ->. Qed.

Lemma mapAt_insert_eq m v σ σ' : maps σ' = <[m := v]> (maps σ) → mapAt m σ' = v.
Proof. unfold mapAt. intros ->. by rewrite lookup_total_insert_eq. Qed.

Lemma mapAt_insert_ne m m' v σ σ' :
  m ≠ m' → maps σ' = <[m := v]> (maps σ) → mapAt m' σ' = mapAt m' σ.
Proof. unfold mapAt. intros ? ->. by rewrite lookup_total_insert_ne. Qed.

Lemma IsRunning_started h id : IsRunning (container (started h id)) = true.
Proof. done. Qed.

Section Passes.
Context (rank : string → nat) (c : containers) (cur : mref).
Hypothesis Hcur : currentState c = Some cur.
Hypothesis Hne : cur ≠ desiredState c.

Abbreviation des := (desiredState c).
Abbreviation view := (viewOf cur (desiredState c)).

Lemma pruneOrRevive_view n σ σ' :
  WFV (view n σ) → FreshV (view n σ) →
  pruneOrRevive cur n σ = (inr tt, σ') →
  WFV (view n σ') ∧ FreshV (view n σ') ∧ RunV (view n σ').
Proof.
  unfold WFV, FreshV, RunV, viewOf. simpl. intros [W1 W2] Hf H.
  unfold pruneOrRevive in H.
  destruct (mapAt cur σ !! n) as [r|] eqn:Er.
  2:{ simplify_eq. rewrite Er. simpl. done. }
  destruct W1 as [hc Hhc]; [done|]. simpl in *.
  rewrite (cellAt_Some _ _ _ Hhc) in H.
  destruct (Exists (container hc)) eqn:Ex; simpl in H.
  - inv_ok. unfold ensureRunning in H. rewrite (cellAt_Some _ _ _ Hhc) in H.
    destruct (IsRunning (container hc)) eqn:Erun.
    + simplify_eq. rewrite Er. simpl. rewrite Hhc.
      split; [eauto|]. split; [done|]. by intros ? [= <-].
    + apply hcc_Start_ok in H as (Hh & Hm & _).
      rewrite !(mapAt_maps_eq _ _ _ Hm), Er, Hh. simpl.
      rewrite lookup_insert_eq. repeat split.
      * eauto.
      * intros Hd. destruct (W2 Hd) as [hd Hhd].
        destruct (mapAt des σ !! n) as [d|]; simpl in *; [|done].
        rewrite lookup_insert. case_decide; eauto.
      * intros hd Hhd Hx. destruct (mapAt des σ !! n) as [d|] eqn:Ed; simpl in *; [|done].
        rewrite lookup_insert_ne in Hhd by congruence. eauto.
      * by intros ? [= <-].
  - simplify_eq. simpl. rewrite mapAt_setMaps_eq, mapAt_setMaps_ne by done.
    rewrite lookup_delete_eq. simpl. repeat split; [by intros [??]|done| |done].
    intros hd Hhd _ Hex.
    destruct (mapAt des σ !! n) as [d|] eqn:Ed; simpl in *; [|done].
    apply (Hf hd Hhd); [|done]. intros [= ->]. congruence.
Qed.

Lemma configureAndCreate_view n σ σ' :
  is_Some (mapAt des σ !! n) →
  WFV (view n σ) → FreshV (view n σ) → RunV (view n σ) →
  configureAndCreate rank c n σ = (inr tt, σ') →
  ConfiguredV (view n σ').
Proof.
  unfold WFV, FreshV, RunV, ConfiguredV, viewOf. simpl.
  intros [d Hd] [W1 W2] Hf Hrun H. rewrite Hd in *. simpl in *.
  destruct W2 as [hd Hhd]; [done|].
  unfold configureAndCreate in H. inv_ok.
  match goal with H : ensureConfigured _ _ _ _ = (_, ?s) |- _ =>
    rename s into σ1; apply (ensureConfigured_ok rank c cur Hcur n σ σ1 d Hd) in H
      as (Hh1 & Hm1 & _) end.
  rewrite (cellAt_Some _ _ _ Hhd) in Hh1.
  destruct (mapAt cur σ !! n) as [r|] eqn:Er; simpl in *.
  - destruct W1 as [hc Hhc]; [done|]. rewrite (cellAt_Some _ _ _ Hhc) in Hh1.
    pose proof (Hrun hc Hhc) as Hr.
    rewrite (ensureExists_exists rank c cur Hcur n σ1 r) in H.
    + simplify_eq. rewrite !(mapAt_maps_eq _ _ _ Hm1), Er, Hd, Hh1. simpl.
      rewrite lookup_insert_eq. rewrite lookup_insert. case_decide.
      * eexists _, _. split; [done|]. split; [done|]. done.
      * eexists _, _. split; [done|]. split; [done|]. done.
    + by rewrite (mapAt_maps_eq _ _ _ Hm1).
    + unfold cellAt. rewrite Hh1, lookup_total_insert_eq. simpl.
      by apply IsRunning_Exists.
  - rewrite (cellAt_Some _ _ _ Hhd), withConfigFiles_id, insert_id in Hh1 by done.
    assert (mapAt cur σ1 !! n = Some d) as Hc1.
    { rewrite (mapAt_insert_eq _ _ _ _ Hm1). apply lookup_insert_eq. }
    assert (mapAt des σ1 !! n = Some d) as Hd1.
    { by rewrite (mapAt_insert_ne _ _ _ _ _ Hne Hm1). }
    assert (cellAt d σ1 = hd) as Hcell.
    { apply cellAt_Some. by rewrite Hh1. }
    destruct (Exists (container hd)) eqn:Ex.
    + rewrite (ensureExists_exists rank c cur Hcur n σ1 d) in H by (by rewrite ?Hcell).
      simplify_eq. rewrite Hc1, Hd1, Hh1. simpl. rewrite Hhd.
      eexists _, _. split; [done|]. split; [done|]. split; [|done].
      apply Hf; done.
    + apply (ensureExists_create rank c cur Hcur n σ1 σ' d) in H
        as (id & Hh2 & Hm2 & _); [|done|done|by rewrite Hcell].
      rewrite !(mapAt_maps_eq _ _ _ Hm2), Hc1, Hd1, Hh2. simpl.
      rewrite lookup_insert_eq.
      eexists _, _. split; [done|]. split; [done|]. done.
Qed.

Lemma configured_inv n σ :
  ConfiguredV (view n σ) →
  ∃ r d hc hd, mapAt cur σ !! n = Some r ∧ mapAt des σ !! n = Some d ∧
    heap σ !! r = Some hc ∧ heap σ !! d = Some hd ∧
    IsRunning (container hc) = true ∧ configFiles hc = configFiles hd.
Proof.
  unfold ConfiguredV, viewOf. simpl. intros (hc & hd & Hc & Hd & ?).
  destruct (mapAt cur σ !! n) as [r|]; [|done].
  destruct (mapAt des σ !! n) as [d|]; [|done]. simpl in *.
  by exists r, d, hc, hd.
Qed.

Lemma ensureSame_absent {A} `{EqDecision A} (f : hostConfiguredContainer → A) what n σ :
  mapAt des σ !! n = None →
  ∃ e, ensureSame rank what (diffWith f c n) c n σ = (inl e, σ).
Proof.
  intros Hd. unfold ensureSame, diffWith, isUpdatable, bind, wrap, desiredAt.
  rewrite Hd. destruct (currentAt c n σ); eauto.
Qed.

Lemma ensureSame_view {A} `{EqDecision A} (f : hostConfiguredContainer → A) what n σ σ' :
  ConfiguredV (view n σ) →
  ensureSame rank what (diffWith f c n) c n σ = (inr tt, σ') →
  ∃ r d hc hd, mapAt cur σ' !! n = Some r ∧ mapAt des σ' !! n = Some d ∧
    heap σ' !! r = Some hc ∧ heap σ' !! d = Some hd ∧
    IsRunning (container hc) = true ∧ configFiles hc = configFiles hd ∧
    f hc = f hd ∧ (σ' = σ ∨ hc = hd).
Proof.
  intros (r & d & hc & hd & Hr & Hd & Hhc & Hhd & Hrun & Hf)%configured_inv H.
  destruct (decide (f hc = f hd)) as [Heq|Hneq].
  - rewrite (ensureSame_same rank c cur Hcur f what n σ r d) in H; try done.
    2:{ by rewrite (cellAt_Some _ _ _ Hhc), (cellAt_Some _ _ _ Hhd). }
    simplify_eq. exists r, d, hc, hd. eauto 10.
  - apply (ensureSame_diff rank c cur Hcur Hne f what n σ σ' r d) in H
      as (id & Hh & Hm & _); try done.
    2:{ by rewrite (cellAt_Some _ _ _ Hhc), (cellAt_Some _ _ _ Hhd). }
    rewrite (cellAt_Some _ _ _ Hhd) in Hh.
    exists d, d, (started hd id), (started hd id).
    rewrite (mapAt_insert_eq _ _ _ _ Hm), (mapAt_insert_ne _ _ _ _ _ Hne Hm), Hh.
    rewrite !lookup_insert_eq. eauto 10.
Qed.

Lemma updateOrRemove_view n σ σ' :
  is_Some (mapAt cur σ !! n) →
  (is_Some (mapAt des σ !! n) → ConfiguredV (view n σ)) →
  updateOrRemove rank c cur n σ = (inr tt, σ') →
  SettledV (view n σ').
Proof.
  intros [r Hr] Hconf H. unfold updateOrRemove in H. rewrite Hr in H. inv_ok.
  destruct (mapAt des σ !! n) as [d|] eqn:Ed.
  2:{ match goal with H : ensureHost _ _ _ _ = _ |- _ =>
        destruct (ensureSame_absent host "failed to check host diff" n σ Ed) as [e He];
        unfold ensureHost, diffHost in H; rewrite He in H; discriminate H end. }
  specialize (Hconf (mk_is_Some _ _ eq_refl)).
  match goal with H : ensureHost _ _ _ _ = (_, ?s) |- _ =>
    rename s into σ1;
    apply (ensureSame_view host _ n σ σ1 Hconf) in H
      as (r1 & d1 & hc1 & hd1 & Hr1 & Hd1 & Hhc1 & Hhd1 & Hrun1 & Hf1 & Hhost & _) end.
  match goal with H : ensureConfigured _ _ _ _ = _ |- _ =>
    rewrite (ensureConfigured_settled rank c cur Hcur n σ1 r1 d1 hc1 hd1) in H by done;
    injection H as <- end.
  assert (ConfiguredV (view n σ1)) as Hconf1.
  { unfold ConfiguredV, viewOf. simpl. rewrite Hr1, Hd1. simpl. eauto 10. }
  match goal with H : ensureContainer _ _ _ _ = (_, ?s) |- _ =>
    rename s into σ3;
    apply (ensureSame_view (λ h, Config (container h)) _ n σ1 σ3 Hconf1) in H
      as (r3 & d3 & hc3 & hd3 & Hr3 & Hd3 & Hhc3 & Hhd3 & Hrun3 & Hf3 & Hcfg & Hor) end.
  unfold desiredAt in H. rewrite Hd3 in H. injection H as <-.
  unfold SettledV, viewOf. simpl. rewrite Hr3, Hd3. simpl.
  exists hc3, hd3. repeat split; try done.
  destruct Hor as [->| ->]; [|done]. congruence.
Qed.

End Passes.

(** * A successful [Execute] settles every name *)

Lemma NoSharing_spec cur des σ :
  NoSharing cur des σ ↔
  ∀ n m p, ownerAt cur des σ n p → ownerAt cur des σ m p → n = m.
Proof.
  unfold NoSharing, noClash, ownerAt. split.
  - intros [HC HD] n m p [Hn|Hn] [Hm|Hm].
    + destruct (HC n p Hn) as [H1 _]. by apply (H1 m p Hm).
    + destruct (HC n p Hn) as [_ H1]. by apply (H1 m p Hm).
    + destruct (HD n p Hn) as [H1 _]. by apply (H1 m p Hm).
    + destruct (HD n p Hn) as [_ H1]. by apply (H1 m p Hm).
  - intros H. split; intros n p Hn; split; intros m q Hm <-; eauto.
Qed.

Lemma WellFormed_views c σ : WellFormed c σ ↔ WellFormedV c σ.
Proof.
  unfold WellFormed, WellFormedV. destruct (currentState c) as [cur|].
  2:{ split; [done|]. by intros (? & ? & _). }
  rewrite NoSharing_spec. unfold allocated, freshCell, WFV, FreshV, viewOf. simpl. split.
  - intros (Hne & Hs & HC & HD & HF). exists cur. split; [done|]. split; [done|].
    split; [done|]. intros n. split; [split|].
    + intros [p Hp]. rewrite Hp. simpl. by apply (HC n).
    + intros [p Hp]. rewrite Hp. simpl. by apply (HD n).
    + intros hd Hhd Hx.
      destruct (mapAt (desiredState c) σ !! n) as [d|] eqn:Ed; [|done]. simpl in Hhd.
      pose proof (HF n d Ed Hx) as Hfr. by rewrite Hhd in Hfr.
  - intros (cur' & [= <-] & Hne & Hs & Hv). split; [done|]. split; [done|].
    split; [|split].
    + intros n p Hp. destruct (Hv n) as [[H1 _] _]. rewrite Hp in H1. by apply H1.
    + intros n p Hp. destruct (Hv n) as [[_ H1] _]. rewrite Hp in H1. by apply H1.
    + intros n d Hd Hx. destruct (Hv n) as [_ H1]. rewrite Hd in H1. simpl in H1.
      destruct (heap σ !! d) as [hd|]; [|done]. by apply H1.
Qed.

Lemma Owned_ownerAt cur des σ : Owned (ownerAt cur des σ) cur des σ.
Proof. intros n p Hp. exact Hp. Qed.

Section Pass.
Context (own : string → loc → Prop) (cur des : mref).
Hypothesis Hne : cur ≠ des.
Hypothesis Hdisj : ownDisjoint own.
Context (body : string → M unit).
Hypothesis Hbody : ∀ y, framed (own y) cur des y (body y).

Lemma pass_post (Pre Post : View → Prop) l σ σ' n :
  NoDup l → Owned own cur des σ → forEach l body σ = (inr tt, σ') →
  (∀ σa σb, Pre (viewOf cur des n σa) → body n σa = (inr tt, σb) →
            Post (viewOf cur des n σb)) →
  Pre (viewOf cur des n σ) → n ∈ l → Post (viewOf cur des n σ').
Proof.
  intros Hnd Ho H Hstep Hpre Hin.
  destruct (loop_at own cur des Hne Hdisj body Hbody n l σ σ' Hnd Hin Ho H)
    as (σa & σb & [Ha _] & _ & Hb & [Hb' _] & _).
  rewrite Hb'. eapply Hstep; [|done]. by rewrite Ha.
Qed.

Lemma pass_skip l σ σ' n :
  Owned own cur des σ → forEach l body σ = (inr tt, σ') → n ∉ l →
  viewOf cur des n σ' = viewOf cur des n σ.
Proof.
  intros Ho H Hn.
  by destruct (loop_others own cur des Hne Hdisj body Hbody n l σ σ' Hn Ho H) as [[? _] _].
Qed.

Lemma pass_Owned l σ σ' :
  Owned own cur des σ → forEach l body σ = (inr tt, σ') → Owned own cur des σ'.
Proof.
  intros Ho H.
  apply (forEach_ind (Owned own cur des) body l σ σ'); [|done|done].
  intros y σ1 σ2 _ Ho1 Hb. eapply frame_Owned; [done|done|]. by eapply Hbody.
Qed.

End Pass.

(** After a successful [Execute] every name is settled: it is in both maps
    with a running container that agrees with the desired one, or in
    neither. *)
Theorem Execute_settles rank c σ σ' :
  WellFormed c σ → Execute rank c σ = (inr tt, σ') → Settled c σ'.
Proof.
  intros (cur & Hcur & Hne & Hshare & Hwf)%WellFormed_views H.
  exists cur. split; [done|]. intros n.
  unfold Execute in H. rewrite Hcur in H. inv_ok.
  match goal with
  | H1 : forEach (rangeKeys _ (mapAt cur σ)) _ σ = (_, ?s1),
    H2 : forEach _ (configureAndCreate _ _) ?s1 = (_, ?s2) |- _ =>
      rename s1 into σ1; rename s2 into σ2; rename H1 into E1; rename H2 into E2
  end.
  set (des := desiredState c) in *.
  set (own := ownerAt cur des σ).
  assert (ownDisjoint own) as Hdisj by (intros a b p Ha Hb; by eapply Hshare).
  pose proof (Owned_ownerAt cur des σ) as Ho. fold own in Ho.
  assert (∀ y, framed (own y) cur des y (pruneOrRevive cur y)) as F1
    by (intros y; by apply (framed_pruneOrRevive (own y) c)).
  assert (∀ y, framed (own y) cur des y (configureAndCreate rank c y)) as F2
    by (intros y; by apply framed_configureAndCreate).
  assert (∀ y, framed (own y) cur des y (updateOrRemove rank c cur y)) as F3
    by (intros y; by apply framed_updateOrRemove).
  pose proof (pass_Owned own cur des Hne _ F1 _ _ _ Ho E1) as Ho1.
  pose proof (pass_Owned own cur des Hne _ F2 _ _ _ Ho1 E2) as Ho2.
  (* pass 1 *)
  assert (WFV (viewOf cur des n σ1) ∧ FreshV (viewOf cur des n σ1) ∧
          RunV (viewOf cur des n σ1)) as (W1 & Fr1 & R1).
  { destruct (decide (n ∈ rangeKeys rank (mapAt cur σ))) as [Hin|Hout].
    - apply (pass_post own cur des Hne Hdisj _ F1
               (λ v, WFV v ∧ FreshV v) (λ v, WFV v ∧ FreshV v ∧ RunV v)
               _ σ σ1 n (rangeKeys_NoDup _ _) Ho E1); [|done|done].
      intros σa σb [??] Hb. by eapply (pruneOrRevive_view c cur).
    - rewrite (pass_skip own cur des Hne Hdisj _ F1 _ σ σ1 n Ho E1 Hout).
      destruct (Hwf n) as [??]. split; [done|]. split; [done|].
      rewrite elem_of_rangeKeys in Hout. unfold RunV, viewOf. simpl.
      destruct (mapAt cur σ !! n); [by destruct Hout|]. done. }
  (* pass 2 *)
  assert (is_Some (mapAt des σ2 !! n) → ConfiguredV (viewOf cur des n σ2)) as C2.
  { destruct (decide (n ∈ rangeKeys rank (mapAt des σ1))) as [Hin|Hout].
    - intros _.
      apply (pass_post own cur des Hne Hdisj _ F2
               (λ v, is_Some (vdes v) ∧ WFV v ∧ FreshV v ∧ RunV v) ConfiguredV
               _ σ1 σ2 n (rangeKeys_NoDup _ _) Ho1 E2); [| |done].
      + intros σa σb (Hd & ? & ? & ?) Hb.
        by apply (configureAndCreate_view rank c cur Hcur Hne n σa σb Hd).
      + split; [|done]. by apply elem_of_rangeKeys in Hin.
    - intros Hd. exfalso. apply Hout, elem_of_rangeKeys.
      pose proof (pass_skip own cur des Hne Hdisj _ F2 _ σ1 σ2 n Ho1 E2 Hout) as Hv.
      apply (f_equal vdes) in Hv. simpl in Hv. by rewrite <- Hv. }
  (* pass 3 *)
  destruct (decide (n ∈ rangeKeys rank (mapAt cur σ2))) as [Hin|Hout].
  - apply (pass_post own cur des Hne Hdisj _ F3
             (λ v, is_Some (vcur v) ∧ (is_Some (vdes v) → ConfiguredV v)) SettledV
             _ σ2 σ' n (rangeKeys_NoDup _ _) Ho2 H); [| |done].
    + intros σa σb [Hc ?] Hb.
      by apply (updateOrRemove_view rank c cur Hcur Hne n σa σb Hc).
    + split; [|done]. by apply elem_of_rangeKeys in Hin.
  - rewrite (pass_skip own cur des Hne Hdisj _ F3 _ σ2 σ' n Ho2 H Hout).
    rewrite elem_of_rangeKeys in Hout.
    unfold SettledV, viewOf. simpl.
    destruct (mapAt cur σ2 !! n) as [r|] eqn:Er; [by destruct Hout|].
    destruct (mapAt des σ2 !! n) as [d|] eqn:Ed; [|done].
    destruct C2 as (hc & hd & Hc & _); [done|].
    unfold viewOf in Hc. simpl in Hc. by rewrite Er in Hc.
Qed.

(** * Idempotence *)


(** * The exact course of [Execute] for one name *)

Lemma view_exact cur des n σ r d hc hd :
  viewOf cur des n σ = mkView r d hc hd ↔
  mapAt cur σ !! n = Some r ∧ mapAt des σ !! n = Some d ∧
  heap σ !! r = Some hc ∧ heap σ !! d = Some hd.
Proof.
  unfold viewOf, mkView. split.
  - intros [= Hr Hd Hc Hh]. rewrite Hr in Hc. rewrite Hd in Hh. done.
  - intros (-> & -> & Hc & Hh). simpl. by rewrite Hc, Hh.
Qed.

Lemma logged_trans cells σ1 σ2 σ3 e1 e2 :
  logged cells σ1 σ2 e1 → logged cells σ2 σ3 e2 → logged cells σ1 σ3 (e1 ++ e2).
Proof.
  intros (a1 & S1 & <-) (a2 & S2 & <-). exists (a1 ++ a2). split.
  - unfold since in *. by rewrite S2, S1, app_assoc.
  - unfold eventsOf. by rewrite filter_app.
Qed.

Lemma eventsOf_none cells evs :
  Forall (λ e, eventCell e ∉ cells) evs → eventsOf cells evs = [].
Proof.
  unfold eventsOf. induction 1 as [|e evs He _ IH]; [done|].
  by rewrite filter_cons_False.
Qed.

Lemma eventsOf_all cells evs :
  Forall (λ e, eventCell e ∈ cells) evs → eventsOf cells evs = evs.
Proof.
  unfold eventsOf. induction 1 as [|e evs He _ IH]; [done|].
  rewrite filter_cons_True by done. by rewrite IH.
Qed.

Section Course.
Context (rank : string → nat) (c : containers) (cur : mref).
Hypothesis Hcur : currentState c = Some cur.
Hypothesis Hne : cur ≠ desiredState c.

Abbreviation des := (desiredState c).
Abbreviation view := (viewOf cur (desiredState c)).

Context (own : string → loc → Prop).
Hypothesis Hdisj : ownDisjoint own.
Context (n : string) (cells : list loc).
Hypothesis Hcells : ∀ p, own n p ↔ p ∈ cells.

Lemma logged_away σ σ' : away own cur des n σ σ' → logged cells σ σ' [].
Proof.
  intros (_ & evs & Ht & Hf). exists evs. split; [done|].
  apply eventsOf_none. eapply Forall_impl; [done|]. intros e He. simpl in *.
  by rewrite <- Hcells.
Qed.

Lemma logged_body (m : M unit) σ σ' evs :
  framed (own n) cur des n m → owns (own n) cur des n σ →
  m σ = (inr tt, σ') → since σ σ' evs → logged cells σ σ' evs.
Proof.
  intros Hm Ho H Hs. exists evs. split; [done|].
  destruct (Hm σ tt σ' Ho H) as (_ & _ & _ & _ & evs' & Ht & Hf).
  unfold since in Hs. rewrite Hs in Ht. apply app_inv_head in Ht as <-.
  apply eventsOf_all. eapply Forall_impl; [done|]. intros e He. simpl in *.
  by rewrite <- Hcells.
Qed.

(** One loop of [Execute], seen from the name [n]: the other names leave
    [n] alone, so what the loop does to [n] is what its body does. *)
Lemma pass_course (body : string → M unit) (Pre : View → Prop)
    (Post : View → list event → Prop) l σ σ' :
  (∀ y, framed (own y) cur des y (body y)) →
  NoDup l → n ∈ l → Owned own cur des σ →
  forEach l body σ = (inr tt, σ') →
  (∀ σa σb, Pre (view n σa) → body n σa = (inr tt, σb) →
            ∃ evs, since σa σb evs ∧ Post (view n σb) evs) →
  Pre (view n σ) →
  ∃ evs, logged cells σ σ' evs ∧ Post (view n σ') evs ∧ Owned own cur des σ'.
Proof.
  intros Hbody Hnd Hin Ho H Hstep Hpre.
  destruct (loop_at own cur des Hne Hdisj body Hbody n l σ σ' Hnd Hin Ho H)
    as (σa & σb & Ha & Hoa & Hb & Hb' & Ho').
  destruct (Hstep σa σb) as (evs & Hs & Hp); [by rewrite (proj1 Ha)|done|].
  exists evs. split; [|split; [by rewrite (proj1 Hb')|done]].
  replace evs with ([] ++ evs ++ []) by (by rewrite app_nil_r).
  eapply logged_trans; [by apply logged_away|].
  eapply logged_trans; [|by apply logged_away].
  by eapply (logged_body (body n)).
Qed.

End Course.

Section Exact.
Context (rank : string → nat) (c : containers) (cur : mref).
Hypothesis Hcur : currentState c = Some cur.
Hypothesis Hne : cur ≠ desiredState c.

Abbreviation des := (desiredState c).
Abbreviation view := (viewOf cur (desiredState c)).

Lemma pruneOrRevive_exact n σ σ' r d hc hd :
  view n σ = mkView r d hc hd → r ≠ d → Exists (container hc) = true →
  pruneOrRevive cur n σ = (inr tt, σ') →
  view n σ' = mkView r d (revived hc) hd ∧
  since σ σ' (if IsRunning (container hc) then [] else [Start r]).
Proof.
  intros (Hr & Hd & Hhc & Hhd)%view_exact Hrd Hex H.
  unfold pruneOrRevive in H. rewrite Hr, (cellAt_Some _ _ _ Hhc), Hex in H.
  simpl in H. inv_ok. rewrite (cellAt_Some _ _ _ Hhc) in H. unfold revived.
  destruct (IsRunning (container hc)).
  - simplify_eq. split; [by apply view_exact|]. unfold since. by rewrite app_nil_r.
  - apply hcc_Start_ok in H as (Hh & Hm & Ht). split; [|done].
    apply view_exact. rewrite !(mapAt_maps_eq _ _ _ Hm), Hh.
    rewrite (cellAt_Some _ _ _ Hhc), lookup_insert_eq, lookup_insert_ne by done. done.
Qed.

Lemma configureAndCreate_exact n σ σ' r d hc hd :
  view n σ = mkView r d hc hd → r ≠ d → Exists (container hc) = true →
  configureAndCreate rank c n σ = (inr tt, σ') →
  view n σ' = mkView r d (withConfigFiles (configFiles hd) hc) hd ∧
  since σ σ' (writes d hd (filesToUpdate rank hd (Some hc))).
Proof.
  intros (Hr & Hd & Hhc & Hhd)%view_exact Hrd Hex H.
  unfold configureAndCreate in H. inv_ok.
  match goal with H : ensureConfigured _ _ _ _ = (_, ?s) |- _ =>
    rename s into σ1; apply (ensureConfigured_ok rank c cur Hcur n σ σ1 d Hd) in H
      as (Hh1 & Hm1 & Ht1) end.
  rewrite Hr in Hh1, Hm1, Ht1. simpl in *.
  rewrite (cellAt_Some _ _ _ Hhc), (cellAt_Some _ _ _ Hhd) in *.
  rewrite (ensureExists_exists rank c cur Hcur n σ1 r) in H.
  - simplify_eq. split; [|done]. apply view_exact.
    rewrite !(mapAt_maps_eq _ _ _ Hm1), Hh1.
    by rewrite lookup_insert_eq, lookup_insert_ne.
  - by rewrite (mapAt_maps_eq _ _ _ Hm1).
  - unfold cellAt. by rewrite Hh1, lookup_total_insert_eq.
Qed.

Lemma updateOrRemove_recreate n σ σ' r d hc hd :
  view n σ = mkView r d hc hd → host hc ≠ host hd →
  updateOrRemove rank c cur n σ = (inr tt, σ') →
  ∃ id, view n σ' = mkView d d (started hd id) (started hd id) ∧
        since σ σ' (removal rank r hc ++
                    writes d hd (rangeKeys rank (configFiles hd)) ++
                    [Create d; Start d]).
Proof.
  intros (Hr & Hd & Hhc & Hhd)%view_exact Hhost H.
  unfold updateOrRemove in H. rewrite Hr in H. inv_ok.
  match goal with H : ensureHost _ _ _ _ = (_, ?s) |- _ =>
    rename s into σ1;
    apply (ensureSame_diff rank c cur Hcur Hne host _ n σ σ1 r d Hr Hd) in H
      as (id & Hh & Hm & Ht);
    [|by rewrite (cellAt_Some _ _ _ Hhc), (cellAt_Some _ _ _ Hhd)] end.
  rewrite (cellAt_Some _ _ _ Hhc), (cellAt_Some _ _ _ Hhd) in *.
  assert (mapAt cur σ1 !! n = Some d) as Hr1.
  { rewrite (mapAt_insert_eq _ _ _ _ Hm). apply lookup_insert_eq. }
  assert (mapAt des σ1 !! n = Some d) as Hd1.
  { by rewrite (mapAt_insert_ne _ _ _ _ _ Hne Hm). }
  assert (heap σ1 !! d = Some (started hd id)) as Hc1.
  { rewrite Hh. apply lookup_insert_eq. }
  match goal with H : ensureConfigured _ _ _ _ = _ |- _ =>
    rewrite (ensureConfigured_settled rank c cur Hcur n σ1 d d _ _ Hr1 Hd1 Hc1 Hc1 eq_refl) in H;
    injection H as <- end.
  match goal with H : ensureContainer _ _ _ _ = _ |- _ =>
    unfold ensureContainer, diffContainer in H;
    rewrite (ensureSame_same rank c cur Hcur _ _ n σ1 d d Hr1 Hd1 eq_refl) in H;
    injection H as <- end.
  unfold desiredAt in H. rewrite Hd1 in H. injection H as <-.
  exists id. split; [by apply view_exact|done].
Qed.

Lemma updateOrRemove_settled_exact n σ σ' r d hc hd :
  view n σ = mkView r d hc hd →
  IsRunning (container hc) = true → host hc = host hd →
  Config (container hc) = Config (container hd) →
  configFiles hc = configFiles hd →
  updateOrRemove rank c cur n σ = (inr tt, σ') →
  view n σ' = mkView r d hc hd ∧ since σ σ' [].
Proof.
  intros Hv ???? H. rewrite (updateOrRemove_settled rank c cur Hcur) in H.
  - injection H as <-. split; [done|]. unfold since. by rewrite app_nil_r.
  - rewrite Hv. unfold SettledV, mkView. simpl. eauto 10.
Qed.

End Exact.

Lemma filesToUpdate_spec rank hd hc p :
  p ∈ filesToUpdate rank hd (Some hc) ↔
  ∃ content, configFiles hd !! p = Some content ∧ configFiles hc !! p ≠ Some content.
Proof.
  unfold filesToUpdate. rewrite list_elem_of_filter, elem_of_rangeKeys.
  unfold needsUpdate. split.
  - intros [Hn [content Hc]]. exists content. split; [done|]. rewrite Hc in Hn.
    destruct (configFiles hc !! p); [|done].
    apply bool_decide_unpack in Hn. congruence.
  - intros (content & Hc & Hn). rewrite Hc. split; [|eauto].
    destruct (configFiles hc !! p); [|done].
    apply bool_decide_pack. congruence.
Qed.

Lemma ownerAt_cells cur des σ n r d :
  mapAt cur σ !! n = Some r → mapAt des σ !! n = Some d →
  ∀ p, ownerAt cur des σ n p ↔ p ∈ [r; d].
Proof.
  intros Hr Hd p. unfold ownerAt. rewrite Hr, Hd.
  rewrite !elem_of_cons, elem_of_nil. split.
  - intros [[= ->]|[= ->]]; auto.
  - intros [->|[->|[]]]; auto.
Qed.

Lemma view_cur_in cur des n σ r d hc hd rank :
  viewOf cur des n σ = mkView r d hc hd → n ∈ rangeKeys rank (mapAt cur σ).
Proof. intros (Hr & _)%view_exact. apply elem_of_rangeKeys. eauto. Qed.

Lemma view_des_in cur des n σ r d hc hd rank :
  viewOf cur des n σ = mkView r d hc hd → n ∈ rangeKeys rank (mapAt des σ).
Proof. intros (_ & Hd & _)%view_exact. apply elem_of_rangeKeys. eauto. Qed.


Lemma filter_runtime_writes c h l :
  filter (λ e, isRuntimeMutation e) (writes c h l) = [].
Proof.
  induction l as [|p l IH]; [done|]. simpl.
  rewrite filter_cons_False by (simpl; tauto). exact IH.
Qed.

Lemma filter_runtime_deletes c (l : list string) :
  filter (λ e, isRuntimeMutation e) (map (DeleteFile c) l) = [].
Proof.
  induction l as [|p l IH]; [done|]. simpl.
  rewrite filter_cons_False by (simpl; tauto). exact IH.
Qed.

Lemma IsRunning_revived hc :
  Exists (container hc) = true → IsRunning (container (revived hc)) = true.
Proof. intros Hex. unfold revived. by destruct (IsRunning (container hc)) eqn:E. Qed.

Lemma filter_runtime_removal rank r h :
  IsRunning (container h) = true →
  filter (λ e, isRuntimeMutation e) (removal rank r h) = [Stop r; Remove r].
Proof.
  unfold IsRunning, removal. intros [-> ->]%andb_prop. simpl.
  rewrite !filter_cons_True by (simpl; tauto). by rewrite filter_runtime_deletes.
Qed.


(** * Containers scheduled for removal *)

Lemma forEach_fails (body : string → M unit) (J : State → Prop) n l σ :
  n ∈ l → J σ →
  (∀ y σ1 σ2, y ≠ n → J σ1 → body y σ1 = (inr tt, σ2) → J σ2) →
  (∀ σ1, J σ1 → ∃ e σ2, body n σ1 = (inl e, σ2)) →
  ∃ e σ', forEach l body σ = (inl e, σ').
Proof.
  intros Hin HJ Hstep Hfail. revert σ HJ.
  induction l as [|y l IH]; intros σ HJ; [by apply elem_of_nil in Hin|].
  simpl. unfold bind.
  destruct (body y σ) as [[e|[]] σ1] eqn:Hb; [eauto|].
  destruct (decide (y = n)) as [->|Hy].
  - destruct (Hfail σ HJ) as (e & σ2 & He). congruence.
  - apply elem_of_cons in Hin as [->|Hin]; [done|].
    apply IH; [done|]. by eapply Hstep.
Qed.

Lemma owns_True cur des x σ : owns (λ _, True) cur des x σ.
Proof. by intros p _. Qed.

Section Removal.
Context (rank : string → nat) (c : containers) (cur : mref) (n : string).
Hypothesis Hcur : currentState c = Some cur.
Hypothesis Hne : cur ≠ desiredState c.

Abbreviation des := (desiredState c).

Lemma pruneOrRevive_keeps_existing y r σ σ' :
  mapAt cur σ !! n = Some r → Exists (container (cellAt r σ)) = true →
  pruneOrRevive cur y σ = (inr tt, σ') →
  mapAt cur σ' !! n = Some r ∧ Exists (container (cellAt r σ')) = true ∧
  mapAt des σ' = mapAt des σ.
Proof.
  intros Hr Hex H. unfold pruneOrRevive in H.
  destruct (mapAt cur σ !! y) as [r'|] eqn:Ey; [|by simplify_eq].
  destruct (negb (Exists (container (cellAt r' σ)))) eqn:Eneg.
  - simplify_eq. rewrite mapAt_setMaps_eq, mapAt_setMaps_ne by done.
    split; [|done]. rewrite lookup_delete_ne; [done|].
    intros ->. rewrite Hr in Ey. simplify_eq. by rewrite Hex in Eneg.
  - inv_ok. unfold ensureRunning in H.
    destruct (IsRunning _); [by simplify_eq|].
    apply hcc_Start_ok in H as (Hh & Hm & _).
    rewrite !(mapAt_maps_eq _ _ _ Hm). split; [done|]. split; [|done].
    unfold cellAt in *. rewrite Hh.
    destruct (decide (r' = r)) as [->|?].
    + by rewrite lookup_total_insert_eq.
    + by rewrite lookup_total_insert_ne.
Qed.

Lemma updateOrRemove_scheduled σ :
  is_Some (mapAt cur σ !! n) → mapAt des σ !! n = None →
  ∃ e σ', updateOrRemove rank c cur n σ = (inl e, σ').
Proof.
  intros [r Hr] Hd. unfold updateOrRemove. rewrite Hr.
  destruct (ensureSame_absent rank c host "failed to check host diff" n σ Hd) as [e He].
  unfold bind, wrap, ensureHost, diffHost. rewrite He. eauto.
Qed.

(** Pass 3 diffs the hosts of every current name before it looks the name up
    in the desired state, and the diff refuses a name that is not desired. *)
Lemma Execute_fails_scheduled σ r :
  mapAt cur σ !! n = Some r → mapAt des σ !! n = None →
  Exists (container (cellAt r σ)) = true →
  ∃ e σ', Execute rank c σ = (inl e, σ').
Proof.
  intros Hr Hd Hex. unfold Execute. rewrite Hcur. unfold bind.
  destruct (forEach _ (pruneOrRevive cur) σ) as [[e|[]] σ1] eqn:E1; [eauto|].
  assert (mapAt cur σ1 !! n = Some r ∧ Exists (container (cellAt r σ1)) = true ∧
          mapAt des σ1 = mapAt des σ) as (Hr1 & _ & Hd1).
  { apply (forEach_ind (λ s, mapAt cur s !! n = Some r ∧
                             Exists (container (cellAt r s)) = true ∧
                             mapAt des s = mapAt des σ) _ _ _ _ ) in E1; [done| |done].
    intros y σa σb _ (Ha & Hb & Hc) Hy.
    destruct (pruneOrRevive_keeps_existing y r σa σb Ha Hb Hy) as (? & ? & ?).
    split; [done|]. split; [done|]. congruence. }
  destruct (forEach _ (configureAndCreate rank c) σ1) as [[e|[]] σ2] eqn:E2; [eauto|].
  assert (is_Some (mapAt cur σ2 !! n) ∧ mapAt des σ2 !! n = None) as [Hr2 Hd2].
  { apply (forEach_ind (λ s, is_Some (mapAt cur s !! n) ∧ mapAt des s = mapAt des σ1)
             _ _ _ _) in E2 as [? Heq]; [by rewrite Heq, Hd1| |by eauto].
    intros y σa σb Hy [Ha Hb] Hbody.
    destruct (framed_configureAndCreate rank (λ _, True) c cur y Hcur Hne σa tt σb
                (owns_True _ _ _ _) Hbody) as (A1 & A2 & _).
    split; [|by rewrite (A1 des)].
    rewrite A2; [done|]. intros ->.
    apply elem_of_rangeKeys in Hy. rewrite Hd1, Hd in Hy. by destruct Hy. }
  apply (forEach_fails _ (λ s, is_Some (mapAt cur s !! n) ∧ mapAt des s !! n = None) n).
  - by apply elem_of_rangeKeys.
  - done.
  - intros y σa σb Hy [Ha Hb] Hbody.
    destruct (framed_updateOrRemove rank (λ _, True) c cur y Hcur Hne σa tt σb
                (owns_True _ _ _ _) Hbody) as (A1 & A2 & _).
    by rewrite A2, (A1 des).
  - intros σa [Ha Hb]. by apply updateOrRemove_scheduled.
Qed.

End Removal.

(** C1. A name that is in the current state with an existing container and
    is not in the desired state makes [Execute] fail, whatever the other
    names, the hosts and the order of iteration are: pass 3 reaches
    [isUpdatable] through [ensureHost] before it looks the name up in the
    desired state, so the removal at the end of pass 3 is never run. *)
Theorem Execute_fails_on_removal rank c cur n r σ :
  currentState c = Some cur →
  mapAt cur σ !! n = Some r →
  mapAt (desiredState c) σ !! n = None →
  Exists (container (cellAt r σ)) = true →
  ∃ e σ', Execute rank c σ = (inl e, σ').
Proof.
  intros Hcur Hr Hd Hex.
  apply (Execute_fails_scheduled rank c cur n Hcur) with r; [|done..].
  intros ->. rewrite Hd in Hr. discriminate.
Qed.

(** * Preconditions of [Execute] *)

Lemma wrap_err {A} msg (m : M A) σ e σ' :
  wrap msg m σ = (inl e, σ') → isWrapped e.
Proof.
  unfold wrap. destruct (m σ) as [[e'|a] σ1]; intros H; simplify_eq. done.
Qed.

Lemma bind_err {A B} (m : M A) (k : A → M B) σ e σ' :
  bind m k σ = (inl e, σ') →
  m σ = (inl e, σ') ∨ ∃ a σ1, m σ = (inr a, σ1) ∧ k a σ1 = (inl e, σ').
Proof.
  unfold bind. destruct (m σ) as [[e'|a] σ1]; intros H; [left; congruence|].
  right. eauto.
Qed.

Lemma forEach_err {A} (body : A → M unit) l σ e σ' :
  forEach l body σ = (inl e, σ') →
  ∃ x σ1 σ2, x ∈ l ∧ body x σ1 = (inl e, σ2).
Proof.
  revert σ. induction l as [|x l IH]; intros σ H; simpl in H; [discriminate|].
  apply bind_err in H as [H|(a & σ1 & _ & H)].
  - exists x, σ, σ'. split; [by left|done].
  - destruct (IH _ H) as (y & σa & σb & Hy & Hb). exists y, σa, σb.
    split; [by right|done].
Qed.

Lemma pruneOrRevive_err cur n σ e σ' :
  pruneOrRevive cur n σ = (inl e, σ') → isWrapped e.
Proof.
  unfold pruneOrRevive. destruct (mapAt cur σ !! n); [|discriminate].
  destruct (negb _); [discriminate|]. apply wrap_err.
Qed.

Lemma configureAndCreate_err rank c n σ e σ' :
  configureAndCreate rank c n σ = (inl e, σ') → isWrapped e.
Proof.
  unfold configureAndCreate. intros [H|(a & σ1 & _ & H)]%bind_err;
    by eapply wrap_err.
Qed.

Lemma updateOrRemove_err rank c cur n σ e σ' :
  updateOrRemove rank c cur n σ = (inl e, σ') → isWrapped e.
Proof.
  unfold updateOrRemove. destruct (mapAt cur σ !! n); [|discriminate].
  intros [H|(a & σ1 & _ & [H|(a2 & σ2 & _ & [H|(a3 & σ3 & _ & H)]%bind_err)]%bind_err)]%bind_err;
    try by eapply wrap_err.
  destruct (desiredAt c n σ3); [discriminate|]. by eapply wrap_err.
Qed.

Lemma Execute_err rank c cur σ e σ' :
  currentState c = Some cur → Execute rank c σ = (inl e, σ') → isWrapped e.
Proof.
  intros Hcur. unfold Execute. rewrite Hcur.
  intros [H|(a & σ1 & _ & [H|(a2 & σ2 & _ & H)]%bind_err)]%bind_err;
    apply forEach_err in H as (x & σa & σb & _ & H).
  - by eapply pruneOrRevive_err.
  - by eapply configureAndCreate_err.
  - by eapply updateOrRemove_err.
Qed.

(** C6. Without a current state [Execute] fails with the precondition error
    and leaves the state as it is (nothing is logged); once
    [CheckCurrentState] has been called, whatever it returned, the current
    state is set and no [Execute] fails with that error. *)
Theorem Execute_needs_current_state rank c σ :
  currentState c = None →
  Execute rank c σ = (inl errNoCurrentState, σ) ∧
  ∀ r c1 σ1, CheckCurrentState rank c σ = (r, c1, σ1) →
    currentState c1 = Some (previousState c) ∧
    ∀ σ2, (Execute rank c1 σ2).1 ≠ inl errNoCurrentState.
Proof.
  intros Hnil. split.
  - unfold Execute. by rewrite Hnil.
  - intros r c1 σ1 H. unfold CheckCurrentState in H. rewrite Hnil in H. simpl in H.
    injection H as _ <- _. simpl. split; [done|].
    intros σ2 He. destruct (Execute rank _ σ2) as [res σ3] eqn:E. simpl in He. subst res.
    by apply (Execute_err _ _ (previousState c)) in E.
Qed.

(** * The previous state is the current state *)

(** C3, amended. The first [CheckCurrentState] makes the current state the
    very map the previous state is; the engine never points its three
    fields anywhere else afterwards, so what the reconciler does to the
    current state it does to the previous state, and [ToExported] reports
    the current state as the previous one. *)
Theorem previousState_aliases_currentState rank c σ r c1 σ1 :
  currentState c = None →
  CheckCurrentState rank c σ = (r, c1, σ1) →
  currentState c1 = Some (previousState c1) ∧
  previousState c1 = previousState c ∧
  desiredState c1 = desiredState c ∧
  (∀ σ2 r2 c2 σ3, CheckCurrentState rank c1 σ2 = (r2, c2, σ3) → c2 = c1) ∧
  (∀ σ2, PreviousState (ToExported c1 σ2) =
         (λ m, Export m σ2) <$> currentState c1).
Proof.
  intros Hnil H. unfold CheckCurrentState in H. rewrite Hnil in H. simpl in H.
  injection H as _ <- _. simpl. repeat split.
  intros σ2 r2 c2 σ3 H. unfold CheckCurrentState in H. simpl in H. by injection H as _ <- _.
Qed.

(** * Validation *)

Lemma ContainersState_New_empty s :
  absentOrEmpty s → ContainersState_New s = inr ∅.
Proof.
  intros [-> | ->]; unfold ContainersState_New; simpl;
    rewrite map_to_list_empty; simpl; by rewrite fmap_empty.
Qed.

(** C7. A nil configuration, or one whose previous and desired states are
    both absent or empty, is rejected by [Validate]; [New] then returns an
    error, builds no engine and leaves the state (hosts, heap, log) as it
    is. *)
Theorem Validate_rejects_empty c :
  (c = None ∨
   ∃ c', c = Some c' ∧ absentOrEmpty (PreviousState c') ∧ absentOrEmpty (DesiredState c')) →
  is_Some (Validate c) ∧
  ∀ σ, ∃ err, New c σ = (inl err, σ).
Proof.
  intros Hc.
  assert (is_Some (Validate c)) as [e He].
  { destruct Hc as [->|(c' & -> & Hp & Hd)]; [by eexists|].
    unfold Validate.
    rewrite (ContainersState_New_empty _ Hp), (ContainersState_New_empty _ Hd).
    rewrite bool_decide_true by (by rewrite map_size_empty).
    destruct (PreviousState c'), (DesiredState c'); by eexists. }
  split; [by eexists|]. intros σ. unfold New. rewrite He. eauto.
Qed.

(** * Unknown keys of the persisted state *)


(** * Engines built by [New] *)

Lemma allocCells_unfold m hp :
  allocCells m hp = foldr allocStep (∅, hp) (map_to_list m).
Proof. done. Qed.

Lemma alloc_list_spec l hp :
  NoDup l.*1 →
  let a := foldr allocStep (∅, hp) l in
  hp ⊆ a.2 ∧
  (∀ n, is_Some (a.1 !! n) ↔ n ∈ l.*1) ∧
  (∀ n p, a.1 !! n = Some p →
     hp !! p = None ∧ ∃ h, (n, h) ∈ l ∧ a.2 !! p = Some h) ∧
  (∀ n n' p, a.1 !! n = Some p → a.1 !! n' = Some p → n = n') ∧
  (∀ p, is_Some (a.2 !! p) → is_Some (hp !! p) ∨ ∃ n, a.1 !! n = Some p).
Proof.
  induction l as [|[n h] l IH]; intros Hnd; simpl.
  - split; [done|]. split.
    { intros n. rewrite lookup_empty, elem_of_nil. split; [by intros [??]|done]. }
    split; [by intros ?? ?%lookup_empty_Some|].
    split; [by intros ??? ?%lookup_empty_Some|]. eauto.
  - apply NoDup_cons in Hnd as [Hn Hnd]. destruct (IH Hnd) as (A1 & A2 & A3 & A4 & A5).
    clear IH. set (a := foldr allocStep (∅, hp) l) in *.
    change (list_fmap _ _ fst l) with (l.*1).
    set (p := fresh (dom a.2)).
    assert (a.2 !! p = None) as Hp.
    { apply not_elem_of_dom. apply is_fresh. }
    assert (∀ n' p', a.1 !! n' = Some p' → p' ≠ p) as Hfresh.
    { intros n' p' Hn' ->. destruct (A3 _ _ Hn') as (_ & h' & _ & Hh'). congruence. }
    split.
    { etrans; [exact A1|]. by apply insert_subseteq. }
    split.
    { intros n'. rewrite elem_of_cons, <- A2. simpl.
      destruct (decide (n' = n)) as [->|?].
      - rewrite lookup_insert_eq. split; eauto.
      - rewrite lookup_insert_ne by done. split; [eauto|]. intros [?|?]; [congruence|done]. }
    split.
    { intros n' p'. destruct (decide (n' = n)) as [->|?].
      - rewrite lookup_insert_eq. intros [= <-]. split.
        + eapply lookup_weaken_None; eauto.
        + exists h. rewrite lookup_insert_eq. split; [by left|done].
      - rewrite lookup_insert_ne by done. intros Hn'.
        destruct (A3 _ _ Hn') as (? & h' & ? & ?). split; [done|].
        exists h'. split; [by right|]. rewrite lookup_insert_ne; [done|].
        intros <-. by eapply Hfresh. }
    split.
    { intros n1 n2 p'.
      destruct (decide (n1 = n)) as [->|?]; destruct (decide (n2 = n)) as [->|?];
        rewrite ?lookup_insert_eq, ?lookup_insert_ne by done; try done.
      - intros [= <-] H2. by destruct (Hfresh _ _ H2).
      - intros H1 [= <-]. by destruct (Hfresh _ _ H1).
      - apply A4. }
    { intros p'. destruct (decide (p' = p)) as [->|?].
      - intros _. right. exists n. by rewrite lookup_insert_eq.
      - rewrite lookup_insert_ne by done. intros [?|[n' Hn']]%A5; [by left|].
        right. exists n'. rewrite lookup_insert_ne; [done|]. intros ->.
        apply Hn. apply A2. eauto. }
Qed.

Lemma allocCells_spec m hp :
  let a := allocCells m hp in
  hp ⊆ a.2 ∧
  dom a.1 = dom m ∧
  (∀ n p, a.1 !! n = Some p → hp !! p = None ∧ ∃ h, m !! n = Some h ∧ a.2 !! p = Some h) ∧
  (∀ n n' p, a.1 !! n = Some p → a.1 !! n' = Some p → n = n') ∧
  (∀ p, is_Some (a.2 !! p) → is_Some (hp !! p) ∨ ∃ n, a.1 !! n = Some p).
Proof.
  destruct (alloc_list_spec (map_to_list m) hp (NoDup_fst_map_to_list m))
    as (A1 & A2 & A3 & A4 & A5).
  rewrite allocCells_unfold. simpl. split; [done|]. split.
  { apply set_eq. intros n. rewrite !elem_of_dom, A2.
    rewrite list_elem_of_fmap. split.
    - intros ([n' h] & -> & Hin). apply elem_of_map_to_list in Hin. eauto.
    - intros [h Hh]. exists (n, h). split; [done|]. by apply elem_of_map_to_list. }
  split; [|done].
  intros n p Hn. destruct (A3 _ _ Hn) as (? & h & Hin & ?). split; [done|].
  exists h. split; [|done]. by apply elem_of_map_to_list.
Qed.

Lemma ContainersState_New_inr s m :
  ContainersState_New s = inr m → m = importHCC <$> default ∅ s.
Proof.
  unfold ContainersState_New. destruct (list_find _ _) as [[? [??]]|]; [done|].
  by intros [= <-].
Qed.

(** What [New] builds: two fresh map objects over fresh, pairwise distinct
    cells that hold the validated entries. *)
Lemma New_ok cfg σ c σ' :
  New cfg σ = (inr c, σ') →
  ∃ cfg', cfg = Some cfg' ∧
    currentState c = None ∧ previousState c ≠ desiredState c ∧
    dom (mapAt (previousState c) σ') = dom (default ∅ (PreviousState cfg')) ∧
    dom (mapAt (desiredState c) σ') = dom (default ∅ (DesiredState cfg')) ∧
    (∀ n p, mapAt (previousState c) σ' !! n = Some p →
       ∃ h, default ∅ (PreviousState cfg') !! n = Some h ∧
            heap σ' !! p = Some (importHCC h)) ∧
    (∀ n p, mapAt (desiredState c) σ' !! n = Some p →
       ∃ h, default ∅ (DesiredState cfg') !! n = Some h ∧
            heap σ' !! p = Some (importHCC h)) ∧
    (∀ n m p, ownerAt (previousState c) (desiredState c) σ' n p →
              ownerAt (previousState c) (desiredState c) σ' m p → n = m) ∧
    world σ' = world σ ∧ trace σ' = trace σ.
Proof.
  unfold New. destruct (Validate cfg); [discriminate|].
  destruct cfg as [cfg'|]; [|discriminate].
  destruct (ContainersState_New (PreviousState cfg')) as [|prev] eqn:Ep; [discriminate|].
  destruct (ContainersState_New (DesiredState cfg')) as [|des] eqn:Ed; [discriminate|].
  apply ContainersState_New_inr in Ep, Ed.
  intros [= <- <-]. exists cfg'. split; [done|]. simpl. unfold allocState. simpl.
  destruct (allocCells_spec prev (heap σ)) as (A1 & A2 & A3 & A4 & A5).
  set (a1 := allocCells prev (heap σ)) in *.
  destruct (allocCells_spec des a1.2) as (B1 & B2 & B3 & B4 & B5).
  set (a2 := allocCells des a1.2) in *.
  set (rp := fresh (dom (maps σ))).
  set (rd := fresh (dom (<[rp := a1.1]> (maps σ)))).
  assert (rp ≠ rd) as Hr.
  { intros Heq. apply (is_fresh (dom (<[rp := a1.1]> (maps σ)))).
    fold rd. rewrite <- Heq. apply elem_of_dom. rewrite lookup_insert_eq. eauto. }
  assert (mapAt rp {| heap := a2.2; maps := <[rd := a2.1]> (<[rp := a1.1]> (maps σ));
                     world := world σ; trace := trace σ |} = a1.1) as Hp.
  { unfold mapAt. simpl. rewrite lookup_total_insert_ne by done.
    by rewrite lookup_total_insert_eq. }
  assert (mapAt rd {| heap := a2.2; maps := <[rd := a2.1]> (<[rp := a1.1]> (maps σ));
                     world := world σ; trace := trace σ |} = a2.1) as Hd.
  { unfold mapAt. simpl. by rewrite lookup_total_insert_eq. }
  rewrite Hp, Hd. subst prev des.
  split; [done|]. split; [done|].
  split; [by rewrite A2, dom_fmap_L|]. split; [by rewrite B2, dom_fmap_L|].
  assert (∀ n p, a1.1 !! n = Some p → is_Some (a1.2 !! p)) as Hp1.
  { intros n p Hn. destruct (A3 _ _ Hn) as (_ & h & _ & ?). eauto. }
  split.
  { intros n p Hn. destruct (A3 _ _ Hn) as (_ & h & Hh & Hc).
    rewrite lookup_fmap in Hh. destruct (default ∅ (PreviousState cfg') !! n) as [h0|];
      [|done]. simpl in Hh. injection Hh as <-. exists h0. split; [done|].
    eapply lookup_weaken; eauto. }
  split.
  { intros n p Hn. destruct (B3 _ _ Hn) as (_ & h & Hh & Hc).
    rewrite lookup_fmap in Hh. destruct (default ∅ (DesiredState cfg') !! n) as [h0|];
      [|done]. simpl in Hh. injection Hh as <-. by exists h0. }
  split; [|done].
  intros n m p Hn Hm. unfold ownerAt, mapAt in Hn, Hm. simpl in Hn, Hm.
  rewrite lookup_total_insert_eq in Hn, Hm.
  rewrite lookup_total_insert_ne, lookup_total_insert_eq in Hn, Hm by done.
  destruct Hn as [Hn|Hn], Hm as [Hm|Hm].
  - by eapply A4.
  - destruct (Hp1 _ _ Hn) as [? Hx]. destruct (B3 _ _ Hm) as [Hy _]. congruence.
  - destruct (Hp1 _ _ Hm) as [? Hx]. destruct (B3 _ _ Hn) as [Hy _]. congruence.
  - by eapply B4.
Qed.

Section Refresh.
Context (rank : string → nat).

Lemma forEach_emit_ok {A} (f : A → event) l σ σ' :
  forEach l (λ a, emit (f a)) σ = (inr tt, σ') →
  heap σ' = heap σ ∧ maps σ' = maps σ.
Proof.
  revert σ. induction l as [|a l IH]; intros σ H; simpl in H; inv_ok; [done|].
  emit_inv. by apply IH in H as [-> ->].
Qed.

Lemma hcc_refresh_ok c σ σ' :
  hcc_refresh rank c σ = (inr tt, σ') →
  maps σ' = maps σ ∧ ∃ h, heap σ' = <[c := h]> (heap σ).
Proof.
  unfold hcc_refresh. intros H. inv_ok. emit_inv.
  match goal with H : forEach _ _ _ = _ |- _ =>
    apply forEach_emit_ok in H as [Hh Hm] end.
  simpl in *. rewrite Hh, Hm. eauto.
Qed.

Lemma CheckState_frame s σ σ' :
  CheckState rank s σ = (inr tt, σ') →
  maps σ' = maps σ ∧
  (∀ p, (∀ n, mapAt s σ !! n ≠ Some p) → heap σ' !! p = heap σ !! p) ∧
  (∀ p, is_Some (heap σ !! p) → is_Some (heap σ' !! p)).
Proof.
  unfold CheckState. intros H.
  apply (forEach_ind (λ σ1, maps σ1 = maps σ ∧
           (∀ p, (∀ n, mapAt s σ !! n ≠ Some p) → heap σ1 !! p = heap σ !! p) ∧
           (∀ p, is_Some (heap σ !! p) → is_Some (heap σ1 !! p))) _ _ _ _) in H;
    [done| |done].
  intros n σ1 σ2 _ (Hm & Hh & Hd) Hb.
  assert (mapAt s σ1 = mapAt s σ) as Hs by (by apply mapAt_maps_eq).
  rewrite Hs in Hb. destruct (mapAt s σ !! n) as [c|] eqn:Ec; [|by simplify_eq].
  inv_ok. apply hcc_refresh_ok in Hb as (Hm2 & h & Hh2).
  split; [congruence|]. rewrite Hh2. split.
  - intros p Hp. rewrite lookup_insert_ne; [by apply Hh|]. intros ->. by eapply Hp.
  - intros p Hp. rewrite lookup_insert. case_decide; eauto.
Qed.

End Refresh.

(** Every engine that [New] builds from a configuration whose desired
    entries carry no status of a stopped container is well formed once
    [CheckCurrentState] has run. *)
Theorem New_CheckCurrentState_WellFormed rank cfg σ c σ1 c1 σ2 :
  New cfg σ = (inr c, σ1) →
  (∀ d n h, cfg ≫= DesiredState = Some d → d !! n = Some h →
     Exists (HCC_Container h) = true → IsRunning (HCC_Container h) = true) →
  CheckCurrentState rank c σ1 = (inr tt, c1, σ2) →
  WellFormed c1 σ2.
Proof.
  intros (cfg' & -> & Hnil & Hne & _ & _ & Hp & Hd & Hshare & _)%New_ok Hfresh H.
  unfold CheckCurrentState in H. rewrite Hnil in H. simpl in H.
  destruct (CheckState rank (previousState c) σ1) as [res σ2'] eqn:E.
  simpl in H. injection H as -> <- ->.
  apply CheckState_frame in E as (Hm & Hh & Hdom).
  apply WellFormed_views.
  exists (previousState c). simpl. split; [done|]. split; [done|].
  assert (∀ m, mapAt m σ2 = mapAt m σ1) as Hmap by (intros; by apply mapAt_maps_eq).
  split.
  { intros n m p. unfold ownerAt. rewrite !Hmap. apply Hshare. }
  intros n. unfold WFV, FreshV, viewOf. simpl. rewrite !Hmap. split; [split|].
  - intros [p Hn]. rewrite Hn. simpl. destruct (Hp _ _ Hn) as (h & _ & Hc).
    apply Hdom. eauto.
  - intros [p Hn]. rewrite Hn. simpl. destruct (Hd _ _ Hn) as (h & _ & Hc).
    apply Hdom. eauto.
  - intros hd Hhd Hx.
    destruct (mapAt (desiredState c) σ1 !! n) as [pd|] eqn:En; [|done]. simpl in Hhd.
    destruct (Hd _ _ En) as (h & Hh0 & Hc).
    rewrite Hh in Hhd.
    + rewrite Hc in Hhd. injection Hhd as <-. simpl.
      destruct (DesiredState cfg') as [d|] eqn:Ed; simpl in Hh0; [|done].
      by apply (Hfresh d n h).
    + intros m Hm'. assert (m = n) as ->.
      { eapply Hshare; [by left|by right]. }
      rewrite Hm' in Hx. done.
Qed.

(** * The serving certificate of the API server *)

Section ServerCertificate.
Import PkgPki.
Context (serverUsage : list string).

(** C8. Whatever the API server settings are, the request for the serving
    certificate carries a template with the six default DNS names followed
    by the external names, and 127.0.0.1 followed by the server IPs. *)
Theorem kubeAPIServerServerCR_default_SANs (k : Kubernetes) (defaultCertificate : Certificate) :
  let a := default emptyKubeAPIServer (K_KubeAPIServer k) in
  ∃ k' cr t,
    kubeAPIServerServerCR serverUsage (ensureKubeAPIServer k) defaultCertificate
      = Some (k', cr) ∧
    Inline t ∈ Certificates cr ∧
    DNSNames t =
      ["localhost"; "kubernetes"; "kubernetes.default"; "kubernetes.default.svc";
       "kubernetes.default.svc.cluster"; "kubernetes.default.svc.cluster.local"]%string
      ++ ExternalNames a ∧
    IPAddresses t = ["127.0.0.1"%string] ++ ServerIPs a ∧
    (∀ x, x ∈ defaultDNSNames → x ∈ DNSNames t) ∧
    "127.0.0.1"%string ∈ IPAddresses t ∧
    (∀ x, x ∈ ExternalNames a → x ∈ DNSNames t) ∧
    (∀ x, x ∈ ServerIPs a → x ∈ IPAddresses t).
Proof.
  intros a.
  set (a' := setServerCertificate a (orEmpty (ServerCertificate a))).
  set (t := defaultKubeAPIServerServerCertificate serverUsage (Some a')).
  assert (DNSNames t = defaultDNSNames ++ ExternalNames a) as Hd by done.
  assert (IPAddresses t = ["127.0.0.1"%string] ++ ServerIPs a) as Hi by done.
  eexists _, _, t. split; [done|]. rewrite Hd, Hi. split.
  { simpl. do 3 right. left. }
  split; [done|]. split; [done|].
  split; [intros x Hx; apply elem_of_app; by left|].
  split; [by left|].
  split; intros x Hx; [apply elem_of_app|]; by right.
Qed.

End ServerCertificate.

(** * The engine of the control plane *)

Section ControlplaneNew.
Import PkgContainer PkgControlplane.

Context (BuildConfig : Host → Host → Host).
Context (kubeAPIServer kubeControllerManager kubeScheduler : Type).
Context (KubeAPIServer_New : KubeAPIServer → error + kubeAPIServer).
Context (KubeControllerManager_New : KubeControllerManager → error + kubeControllerManager).
Context (KubeScheduler_New : KubeScheduler → error + kubeScheduler).
Context (kas_HCC : kubeAPIServer → error + HostConfiguredContainer).
Context (kcm_HCC : kubeControllerManager → error + HostConfiguredContainer).
Context (ks_HCC : kubeScheduler → error + HostConfiguredContainer).

Abbreviation CPValidate :=
  (PkgControlplane.Validate BuildConfig _ _ _ KubeAPIServer_New KubeControllerManager_New
     KubeScheduler_New kas_HCC kcm_HCC ks_HCC).
Abbreviation CPNew :=
  (PkgControlplane.New BuildConfig _ _ _ KubeAPIServer_New KubeControllerManager_New
     KubeScheduler_New kas_HCC kcm_HCC ks_HCC).

Lemma buildKubeScheduler_State c c' :
  buildKubeScheduler BuildConfig c = Some c' → CP_State c' = CP_State c.
Proof.
  unfold buildKubeScheduler. destruct (propagateKubeconfig _ _); [|done].
  by intros [= <-].
Qed.

Lemma buildKubeControllerManager_State c c' :
  buildKubeControllerManager BuildConfig c = Some c' → CP_State c' = CP_State c.
Proof.
  unfold buildKubeControllerManager. destruct (propagateKubeconfig _ _); [|done].
  by intros [= <-].
Qed.

Lemma buildComponents_State c c' :
  buildComponents BuildConfig c = Some c' → CP_State c' = CP_State c.
Proof.
  unfold buildComponents. intros H.
  destruct (buildKubeControllerManager BuildConfig (buildKubeAPIServer BuildConfig c))
    as [c1|] eqn:E1; [|done]. simpl in H.
  apply buildKubeControllerManager_State in E1.
  apply buildKubeScheduler_State in H. by rewrite H, E1.
Qed.

Lemma Validate_State c c' e :
  CPValidate c = Some (c', e) → CP_State c' = CP_State c.
Proof.
  unfold PkgControlplane.Validate. intros H.
  destruct (buildComponents BuildConfig c) as [c1|] eqn:Eb; [|done]. simpl in H.
  apply buildComponents_State in Eb. rewrite <- Eb.
  destruct (KubeAPIServer_New _), (KubeControllerManager_New _), (KubeScheduler_New _);
    by injection H as <- _.
Qed.

#[local] Arguments buildComponents : simpl never.
#[local] Arguments PkgContainer.New : simpl never.
#[local] Arguments PkgControlplane.Validate : simpl never.

Lemma ContainersState_New_invalid m n h :
  m !! n = Some h → is_Some (validateHCC h) →
  ∃ e, ContainersState_New (Some m) = inl e.
Proof.
  intros Hn Hv. unfold ContainersState_New. simpl.
  destruct (list_find invalidEntry (map_to_list m)) as [[i [n' h']]|] eqn:E; [eauto|].
  exfalso. eapply (list_find_None) in E. rewrite Forall_forall in E.
  apply (E (n, h)); [|done]. by apply elem_of_map_to_list.
Qed.

Lemma New_invalid_previous m n h d σ :
  m !! n = Some h → is_Some (validateHCC h) →
  ∃ e, PkgContainer.New (Some {| PreviousState := Some m; DesiredState := d |}) σ
       = (inl e, σ).
Proof.
  intros Hn Hv. destruct (ContainersState_New_invalid m n h Hn Hv) as [e He].
  unfold PkgContainer.New, PkgContainer.Validate. cbn. rewrite He.
  destruct d; eauto.
Qed.

Ltac step H := cbn [mbind option_bind fst snd] in H.

(** The course of a call of [New] that returns a control plane. *)
Lemma New_inv c σ r σ' :
  CPNew c σ = Some (inr r, σ') →
  ∃ c1 kh mh sh,
    CPValidate c = Some (c1, None) ∧
    let s := default (Some ∅) (CP_State c1) in
    let co := PkgContainer.New (Some {| PreviousState := s; DesiredState := None |}) σ in
    let co2 := PkgContainer.New
                 (Some {| PreviousState := s;
                          DesiredState := Some {[ "kube-apiserver"%string := kh;
                                                  "kube-controller-manager"%string := mh;
                                                  "kube-scheduler"%string := sh ]} |})
                 co.2 in
    r = {| cp_containers := must co2.1 |} ∧ σ' = co2.2.
Proof.
  intros H. unfold PkgControlplane.New in H.
  destruct (CPValidate c) as [[c1 e]|] eqn:Ev; step H; [|discriminate H].
  destruct e as [e|]; [by injection H|].
  destruct (buildComponents BuildConfig c1) as [c2|]; step H; [|discriminate H].
  destruct (must (KubeAPIServer_New _)) as [kas|]; step H; [|discriminate H].
  destruct (must (kas_HCC kas)) as [kh|]; step H; [|discriminate H].
  destruct (must (KubeControllerManager_New _)) as [kcm|]; step H; [|discriminate H].
  destruct (must (kcm_HCC kcm)) as [mh|]; step H; [|discriminate H].
  destruct (must (KubeScheduler_New _)) as [ks|]; step H; [|discriminate H].
  destruct (must (ks_HCC ks)) as [sh|]; step H; [|discriminate H].
  injection H as <- <-. by exists c1, kh, mh, sh.
Qed.

(** C10. A persisted state with an entry that does not validate is not
    looked at by [Validate]; [New] then drops the error of both calls of
    [cc.New()] and returns a control plane with no engine at all, hence
    with no desired state of three names. *)
Theorem New_drops_engine c σ m n h e r σ' :
  CP_State c = Some (Some m) → m !! n = Some h → validateHCC h = Some e →
  CPNew c σ = Some (inr r, σ') →
  (∃ c', CPValidate c = Some (c', None)) ∧ cp_containers r = None ∧ σ' = σ.
Proof.
  intros Hs Hn Hv' (c1 & kh & mh & sh & Ev & Hr & Hσ)%New_inv.
  assert (is_Some (validateHCC h)) as Hv by eauto.
  split; [eauto|]. subst r σ'.
  rewrite (Validate_State _ _ _ Ev), Hs. cbn [default from_option id].
  destruct (New_invalid_previous m n h None σ Hn Hv) as [e1 ->]. cbn [snd].
  match goal with |- context [PkgContainer.New (Some {| PreviousState := _; DesiredState := ?d |}) σ] =>
    destruct (New_invalid_previous m n h d σ Hn Hv) as [e2 ->] end.
  done.
Qed.

(** When [cc.New()] does build an engine, its desired state has the three
    names and no other. *)
Lemma New_desired_names c σ r e σ' :
  CPNew c σ = Some (inr r, σ') → cp_containers r = Some e →
  dom (mapAt (desiredState e) σ') =
    {[ "kube-apiserver"%string; "kube-controller-manager"%string;
       "kube-scheduler"%string ]}.
Proof.
  intros (c1 & kh & mh & sh & Ev & Hr & Hσ)%New_inv He. subst r σ'.
  cbn [cp_containers] in He.
  match type of He with must (?x).1 = _ => destruct x as [[err|e'] σ2] eqn:En end;
    [done|]. cbn in He. injection He as ->. cbn [snd].
  apply New_ok in En as (cfg' & [= <-] & _ & _ & _ & Hd & _). cbn in Hd.
  rewrite Hd, !dom_insert_L, dom_singleton_L. set_solver.
Qed.

End ControlplaneNew.

(** * The scenarios of the specification *)

(** Scenario 5: [b] runs and is no longer desired. *)
Lemma Execute_fails_on_removal_witness :
  currentState engine = Some 0 ∧
  mapAt 0 deletion !! "b"%string = Some 2 ∧
  mapAt (desiredState engine) deletion !! "b"%string = None ∧
  Exists (container (cellAt 2 deletion)) = true ∧
  ∃ e σ', Execute rank0 engine deletion = (inl e, σ').
Proof.
  split; [reflexivity|]. split; [reflexivity|].
  split; [reflexivity|]. split; [reflexivity|].
  apply (Execute_fails_on_removal rank0 engine 0 "b"%string 2 deletion); reflexivity.
Defined.

(** Scenario 5 of the specification, run: the error is the refusal of
    [isUpdatable], nothing was stopped or removed, and [b] is still in the
    current state. *)
Lemma Execute_deletion_scenario :
  Execute rank0 engine deletion =
    (inl (Wrapf "failed updating host configuration of container b"
           (Wrapf "failed to check host diff"
             (Wrapf "can't diff container"
               (Errorf "can't update container 'b', which is scheduler for removal")))),
     deletion).
Proof. vm_compute. reflexivity. Qed.


(** C3, as the claim has it, fails on scenario 1: the previous state the
    engine was built with is empty, and after [CheckCurrentState] and
    [Execute] the same map holds the container [a]. *)
Lemma previousState_mutated :
  coldNew.1 = inr freshEngine ∧
  coldChecked.1 = (inr tt, engine) ∧
  coldDone.1 = inr tt ∧
  previousState engine = previousState freshEngine ∧
  Export (previousState freshEngine) coldNew.2 = ∅ ∧
  Export (previousState freshEngine) coldDone.2 =
    {[ "a"%string :=
         exported hostH1 "img" (runningAs 10) {[ "/c.yaml"%string := "x"%string ]} ]}.
Proof. repeat split; vm_compute; reflexivity. Qed.

(** The first [CheckCurrentState] of scenario 1. *)
Lemma previousState_aliases_currentState_witness :
  currentState freshEngine = None ∧
  CheckCurrentState rank0 freshEngine coldStart = (inr tt, engine, coldStart) ∧
  currentState engine = Some (previousState engine) ∧
  previousState engine = previousState freshEngine ∧
  desiredState engine = desiredState freshEngine ∧
  (∀ σ2 r2 c2 σ3, CheckCurrentState rank0 engine σ2 = (r2, c2, σ3) → c2 = engine) ∧
  (∀ σ2, PreviousState (ToExported engine σ2) =
         (λ m, Export m σ2) <$> currentState engine).
Proof.
  assert (CheckCurrentState rank0 freshEngine coldStart = (inr tt, engine, coldStart))
    as Hcheck by (vm_compute; reflexivity).
  split; [reflexivity|]. split; [exact Hcheck|].
  exact (previousState_aliases_currentState rank0 freshEngine coldStart
           (inr tt) engine coldStart eq_refl Hcheck).
Defined.



(** [Execute] before [CheckCurrentState] on scenario 1. *)
Lemma Execute_needs_current_state_witness :
  currentState freshEngine = None ∧
  Execute rank0 freshEngine coldStart = (inl errNoCurrentState, coldStart) ∧
  ∀ r c1 σ1, CheckCurrentState rank0 freshEngine coldStart = (r, c1, σ1) →
    currentState c1 = Some (previousState freshEngine) ∧
    ∀ σ2, (Execute rank0 c1 σ2).1 ≠ inl errNoCurrentState.
Proof.
  split; [reflexivity|].
  exact (Execute_needs_current_state rank0 freshEngine coldStart eq_refl).
Defined.

(** An empty previous state and no desired state. *)
Lemma Validate_rejects_empty_witness :
  absentOrEmpty (PreviousState emptyConfiguration) ∧
  absentOrEmpty (DesiredState emptyConfiguration) ∧
  is_Some (Validate (Some emptyConfiguration)) ∧
  ∀ σ, ∃ err, New (Some emptyConfiguration) σ = (inl err, σ).
Proof.
  assert (absentOrEmpty (PreviousState emptyConfiguration)) as Hp by (right; reflexivity).
  assert (absentOrEmpty (DesiredState emptyConfiguration)) as Hd by (left; reflexivity).
  split; [exact Hp|]. split; [exact Hd|].
  apply (Validate_rejects_empty (Some emptyConfiguration)).
  right. exists emptyConfiguration. split; [reflexivity|]. split; [exact Hp|exact Hd].
Defined.



(** A control plane whose persisted state holds a container without image. *)
Lemma New_drops_engine_witness :
  PkgControlplane.CP_State plainControlplane = Some (Some invalidEntryState) ∧
  invalidEntryState !! "ghost"%string = Some (exported hostH1 "" noStatus ∅) ∧
  validateHCC (exported hostH1 "" noStatus ∅) = Some (Errorf "image must be set") ∧
  plainNew plainControlplane emptyState =
    Some (inr {| PkgControlplane.cp_containers := None |}, emptyState) ∧
  PkgControlplane.cp_containers {| PkgControlplane.cp_containers := None |} = None.
Proof.
  assert (plainNew plainControlplane emptyState =
    Some (inr {| PkgControlplane.cp_containers := None |}, emptyState)) as Hnew
    by (vm_compute; reflexivity).
  split; [reflexivity|]. split; [reflexivity|]. split; [reflexivity|].
  split; [exact Hnew|].
  exact (proj1 (proj2 (New_drops_engine _ _ _ _ _ _ _ _ _ _ plainControlplane emptyState
           invalidEntryState "ghost"%string (exported hostH1 "" noStatus ∅)
           (Errorf "image must be set") _ emptyState eq_refl eq_refl eq_refl Hnew))).
Defined.
